(** * Conway's Game of Life: the React front-end (App.jsx) and the Java class
    GameOfLife, embedded and checked against the specification.

    The grid of the React component is an array of arrays of the numbers 0
    and 1; the grid of the Java class is a [boolean[][]].  Both are modelled
    as lists of lists, array reads as list lookups, and a failing read (an
    exception) as [None]. *)

From stdpp Require Import base tactics option list list_numbers.
From Stdlib Require Import ZArith Lia.

Local Open Scope Z_scope.

(** ** Loops with an early exit by exception *)

(** [for (x of xs) acc = body(acc, x)], where the body may throw. *)
Fixpoint for_each {A B} (body : A -> B -> option A) (acc : A) (xs : list B)
  : option A :=
  match xs with
  | [] => Some acc
  | x :: xs' =>
      match body acc x with
      | Some acc' => for_each body acc' xs'
      | None => None
      end
  end.

(** [for (x of xs) if (test(x)) return true; return false;], where the test
    may throw. *)
Fixpoint any_of {B} (test : B -> option bool) (xs : list B) : option bool :=
  match xs with
  | [] => Some false
  | x :: xs' =>
      match test x with
      | Some true => Some true
      | Some false => any_of test xs'
      | None => None
      end
  end.

(** ** The vocabulary of the specification *)

(** The toroidal neighbourhood of the specification: the eight offsets, each
    coordinate taken modulo the extent. *)
Definition offsets8 : list (Z * Z) :=
  [ (-1, -1); (-1, 0); (-1, 1);
    (0, -1);           (0, 1);
    (1, -1);  (1, 0);  (1, 1) ].

Definition torus_neighbours (R C r c : Z) : list (Z * Z) :=
  map (fun d => ((r + d.1) mod R, (c + d.2) mod C)) offsets8.

(** The number of positions of [ps] that hold a live cell. *)
Definition count_alive (alive : Z -> Z -> bool) (ps : list (Z * Z)) : Z :=
  foldr (fun p n => Z.b2z (alive p.1 p.2) + n) 0 ps.

(** The sum of the numbers stored at the positions [ps]. *)
Definition sum_values (val : Z -> Z -> Z) (ps : list (Z * Z)) : Z :=
  foldr (fun p n => val p.1 p.2 + n) 0 ps.

(** A rectangular array of arrays: [R] rows of [C] cells. *)
Definition rect {A} (R C : nat) (g : list (list A)) : Prop :=
  length g = R /\ Forall (fun line => length line = C) g.

(** Every cell of a grid of numbers is 0 or 1. *)
Definition binary (g : list (list Z)) : Prop :=
  Forall (Forall (fun v => v = 0 \/ v = 1)) g.

(** The transition rule of the specification, in its five cases. *)
Definition life_rule (alive : bool) (n : Z) : bool :=
  if alive then
    if n <? 2 then false
    else if n <=? 3 then true
    else false
  else
    if n =? 3 then true else false.

(** The same rule as a relation between a cell, its neighbour count and its
    next state, for any representation of the two states. *)
Definition standard_rule {S} (alive dead : S) (cell : S) (n : Z) (next : S)
  : Prop :=
  (cell = alive -> n < 2 -> next = dead) /\
  (cell = alive -> 2 <= n <= 3 -> next = alive) /\
  (cell = alive -> 3 < n -> next = dead) /\
  (cell = dead -> n = 3 -> next = alive) /\
  (cell = dead -> n <> 3 -> next = dead).

(** One generation on the torus, cell by cell, as the specification words
    it: every cell from its own state and the count over the old grid. *)
Definition torus_step (alive : Z -> Z -> bool) (R C : Z) : list (list bool) :=
  map (fun r =>
    map (fun c =>
      life_rule (alive r c) (count_alive alive (torus_neighbours R C r c)))
      (seqZ 0 C))
    (seqZ 0 R).

(** ** The Java class GameOfLife *)

Module Java.

(** *** int arithmetic: 32 bits, two's complement *)

Definition wrap32 (z : Z) : Z := (z + 2 ^ 31) mod 2 ^ 32 - 2 ^ 31.

Definition iadd (a b : Z) : Z := wrap32 (a + b).
Definition imul (a b : Z) : Z := wrap32 (a * b).

(** [a % b]: the remainder has the sign of [a]; [b = 0] throws
    ArithmeticException. *)
Definition irem (a b : Z) : option Z :=
  if decide (b = 0) then None else Some (Z.rem a b).

(** [a[i]]: ArrayIndexOutOfBoundsException outside [0 .. a.length-1]. *)
Definition aget {A} (a : list A) (i : Z) : option A :=
  if decide (0 <= i) then a !! Z.to_nat i else None.

(** [a.length]; a Java array has fewer than 2^31 entries. *)
Definition alen {A} (a : list A) : Z := Z.of_nat (length a).

Definition ALIVE : bool := true.
Definition DEAD : bool := false.

Abbreviation Grid := (list (list bool)).

Record GameOfLife : Type := mkGameOfLife {
  grid : Grid;
  totalAliveCells : Z
}.

(** [new boolean[r][c]] : every cell false. *)
Definition new_boolean (r c : nat) : Grid := replicate r (replicate c false).

(** [grid[row][col] = v]; the constructor writes cells that exist. *)
Definition aset2 (g : Grid) (row col : nat) (v : bool) : Grid :=
  match g !! row with
  | Some line => <[row := <[col := v]> line]> g
  | None => g
  end.

(** The default constructor. *)
Definition default_game : GameOfLife :=
  let g0 := new_boolean 5 5 in
  let g1 := aset2 g0 1 1 ALIVE in
  let g2 := aset2 g1 1 3 ALIVE in
  let g3 := aset2 g2 2 2 ALIVE in
  let g4 := aset2 g3 3 2 ALIVE in
  let g5 := aset2 g4 3 3 ALIVE in
  {| grid := g5; totalAliveCells := 5 |}.

Definition getGrid (s : GameOfLife) : Grid := grid s.

Definition getTotalAliveCells (s : GameOfLife) : Z := totalAliveCells s.

(** [grid[row][col]] *)
Definition aget2 (g : Grid) (row col : Z) : option bool :=
  line ← aget g row; aget line col.

Definition getCellState (g : Grid) (row col : Z) : option bool :=
  aget2 g row col.

(** The loop variables [i] and [j] of the neighbourhood scans. *)
Definition deltas : list Z := [-1; 0; 1].

Definition numOfAliveNeighbors (g : Grid) (row col : Z) : option Z :=
  for_each (fun neighboringCells i =>
    for_each (fun neighboringCells j =>
      if (i =? 0) && (j =? 0) then Some neighboringCells
      else
        neighboringRow ← irem (iadd (iadd row i) (alen g)) (alen g);
        line ← aget g row;
        neighboringCol ← irem (iadd (iadd col j) (alen line)) (alen line);
        cell ← aget2 g neighboringRow neighboringCol;
        Some (if bool_decide (cell = ALIVE)
              then iadd neighboringCells 1 else neighboringCells))
      neighboringCells deltas)
    0 deltas.

(** One cell of the new grid: the four branches of [computeNewGrid]. *)
Definition newCell (cell : bool) (aliveNeighbors : Z) : bool :=
  if cell && (aliveNeighbors <? 2) then DEAD
  else if cell && (aliveNeighbors >? 3) then DEAD
  else if negb cell && (aliveNeighbors =? 3) then ALIVE
  else cell.

(** [computeNewGrid]: the new array has [grid.length] rows of
    [grid[0].length] cells, and every one of them is assigned in row-major
    order. *)
Definition computeNewGrid (g : Grid) : option Grid :=
  line0 ← aget g 0;
  mapM (fun row =>
    mapM (fun col =>
      aliveNeighbors ← numOfAliveNeighbors g row col;
      cell ← aget2 g row col;
      Some (newCell cell aliveNeighbors))
      (seqZ 0 (alen line0)))
    (seqZ 0 (alen g)).

Definition nextGeneration (s : GameOfLife) : option GameOfLife :=
  newGrid ← computeNewGrid (grid s);
  Some {| grid := newGrid; totalAliveCells := totalAliveCells s |}.

(** [for (int i = 0; i < n; i++) grid = computeNewGrid();] *)
Fixpoint repeat_step (k : nat) (s : GameOfLife) : option GameOfLife :=
  match k with
  | O => Some s
  | S k' => s' ← nextGeneration s; repeat_step k' s'
  end.

Definition nextGeneration_n (n : Z) (s : GameOfLife) : option GameOfLife :=
  repeat_step (Z.to_nat n) s.

(** *** The disjoint-set structure *)

(** Modelled from the spec: the class [WeightedQuickUnionUF] that
    [numOfCommunities] builds and calls is not among the sources.  The
    specification (sections 4.3 and 9) describes it as a disjoint-set over
    the flattened cell index [row * C + col], kept as an arena of parent
    and size indices, with union by size; [find] follows parent links up
    to the root, and [union] hangs the root of the smaller tree under the
    root of the other one. *)
Record WeightedQuickUnionUF : Type := mkUF {
  parent : list Z;
  size : list Z;
  ufCols : Z
}.

(** Modelled from the spec: the constructor
    [new WeightedQuickUnionUF(rows, cols)], one element per grid cell, every
    cell its own root with a tree of size 1; a negative array size throws. *)
Definition newUF (rows cols : Z) : option WeightedQuickUnionUF :=
  let n := imul rows cols in
  if decide (0 <= n)
  then Some {| parent := seqZ 0 n;
               size := replicate (Z.to_nat n) 1;
               ufCols := cols |}
  else None.

(** Modelled from the spec: the flattened index [row * C + col] of a cell. *)
Definition cellIndex (uf : WeightedQuickUnionUF) (row col : Z) : Z :=
  iadd (imul row (ufCols uf)) col.

(** Modelled from the spec: the loop of [find],
    [while (p != parent[p]) p = parent[p]; return p;], with the number of
    iterations bounded by [fuel]; running out of it is [None]. *)
Fixpoint find_root (fuel : nat) (parent : list Z) (p : Z) : option Z :=
  match fuel with
  | O => None
  | S fuel' =>
      q ← aget parent p;
      if decide (q = p) then Some p else find_root fuel' parent q
  end.

(** Modelled from the spec: [find(row, col)], the root of the cell.  A path
    in a forest over [parent] has fewer links than [parent] has entries, so
    this fuel is enough whenever the loop ends at all. *)
Definition find (uf : WeightedQuickUnionUF) (row col : Z) : option Z :=
  find_root (S (length (parent uf))) (parent uf) (cellIndex uf row col).

(** [a[i] = v]; the indices written by [union] were read from the same
    array by [find], so they are in range. *)
Definition aset {A} (a : list A) (i : Z) (v : A) : list A :=
  <[Z.to_nat i := v]> a.

(** Modelled from the spec: [union(row1, col1, row2, col2)], union by size;
    on equal sizes the root of the second cell goes under the root of the
    first. *)
Definition union (uf : WeightedQuickUnionUF) (row1 col1 row2 col2 : Z)
  : option WeightedQuickUnionUF :=
  rootP ← find uf row1 col1;
  rootQ ← find uf row2 col2;
  if decide (rootP = rootQ) then Some uf
  else
    sizeP ← aget (size uf) rootP;
    sizeQ ← aget (size uf) rootQ;
    if sizeP <? sizeQ
    then Some {| parent := aset (parent uf) rootP rootQ;
                 size := aset (size uf) rootQ (iadd sizeQ sizeP);
                 ufCols := ufCols uf |}
    else Some {| parent := aset (parent uf) rootQ rootP;
                 size := aset (size uf) rootP (iadd sizeP sizeQ);
                 ufCols := ufCols uf |}.

(** *** numOfCommunities *)

(** [list.contains(x)] on an [ArrayList<Integer>]. *)
Definition contains (lst : list Z) (x : Z) : bool :=
  bool_decide (x ∈ lst).

(** The first loop nest: every live cell is united with each of its live
    neighbours.  [cols] is [grid[0].length]. *)
Definition uniteLiveCells (g : Grid) (cols : Z) (uf0 : WeightedQuickUnionUF)
  : option WeightedQuickUnionUF :=
  for_each (fun uf row =>
    for_each (fun uf col =>
      cell ← aget2 g row col;
      if bool_decide (cell = ALIVE) then
        for_each (fun uf i =>
          for_each (fun uf j =>
            if (i =? 0) && (j =? 0) then Some uf
            else
              neighboringRow ← irem (iadd (iadd row i) (alen g)) (alen g);
              neighboringCol ← irem (iadd (iadd col j) cols) cols;
              neighbour ← aget2 g neighboringRow neighboringCol;
              if bool_decide (neighbour = ALIVE)
              then union uf row col neighboringRow neighboringCol
              else Some uf)
            uf deltas)
          uf deltas
      else Some uf)
      uf (seqZ 0 cols))
    uf0 (seqZ 0 (alen g)).

(** The body of the second loop nest, for a live cell. *)
Definition addRoot (uf : WeightedQuickUnionUF) (lst : list Z) (row col : Z)
  : option (list Z) :=
  root ← find uf row col;
  if negb (contains lst root)
  then root' ← find uf row col; Some (lst ++ [root'])
  else Some lst.

(** The second loop nest: the distinct roots of the live cells. *)
Definition collectRoots (g : Grid) (cols : Z) (uf : WeightedQuickUnionUF)
  : option (list Z) :=
  for_each (fun lst row =>
    for_each (fun lst col =>
      cell ← aget2 g row col;
      if bool_decide (cell = ALIVE) then addRoot uf lst row col
      else Some lst)
      lst (seqZ 0 cols))
    [] (seqZ 0 (alen g)).

Definition numOfCommunities (g : Grid) : option Z :=
  line0 ← aget g 0;
  weightedUnionFind0 ← newUF (alen g) (alen line0);
  weightedUnionFind ← uniteLiveCells g (alen line0) weightedUnionFind0;
  lst ← collectRoots g (alen line0) weightedUnionFind;
  Some (alen lst).

(** *** isAlive *)

Definition isAlive (g : Grid) : option bool :=
  any_of (fun row =>
    line ← aget g row;
    any_of (fun col =>
      cell ← aget2 g row col;
      Some (bool_decide (cell = ALIVE)))
      (seqZ 0 (alen line)))
    (seqZ 0 (alen g)).

(** *** The constructor reading a file *)

(** Modelled from the spec: the class [StdIn] is not among the sources.  By
    section 6 of the specification the file holds the row count, the column
    count and then the cells in row-major order; [readBoolean] hands out the
    next cell and throws when none is left.  The model starts after the two
    calls of [readInt], from the booleans still to be read. *)
Definition readBoolean (input : list bool) : option (bool * list bool) :=
  match input with
  | [] => None
  | b :: rest => Some (b, rest)
  end.

(** The object under construction and what is left of the file. *)
Record Loading : Type := mkLoading {
  loaded : GameOfLife;
  unread : list bool
}.

(** The body of the two loops of the constructor:
    [grid[i][j] = StdIn.readBoolean(); if (grid[i][j] == ALIVE)
    totalAliveCells++;] *)
Definition readCell (st : Loading) (i j : Z) : option Loading :=
  read ← readBoolean (unread st);
  let g := aset2 (grid (loaded st)) (Z.to_nat i) (Z.to_nat j) read.1 in
  cell ← aget2 g i j;
  Some {| loaded :=
            {| grid := g;
               totalAliveCells :=
                 if bool_decide (cell = ALIVE)
                 then iadd (totalAliveCells (loaded st)) 1
                 else totalAliveCells (loaded st) |};
          unread := read.2 |}.

(** [GameOfLife(String file)], given the two integers read first; a
    negative dimension throws NegativeArraySizeException. *)
Definition fromFile (row col : Z) (input : list bool) : option GameOfLife :=
  if decide (0 <= row /\ 0 <= col) then
    st ← for_each (fun st i =>
           for_each (fun st j => readCell st i j) st (seqZ 0 col))
           {| loaded := {| grid := new_boolean (Z.to_nat row) (Z.to_nat col);
                           totalAliveCells := 0 |};
              unread := input |}
           (seqZ 0 row);
    Some (loaded st)
  else None.

(** *** Observations used in the statements *)

(** Whether cell (r, c) exists and is alive. *)
Definition is_alive (g : Grid) (r c : Z) : bool :=
  bool_decide (aget2 g r c = Some ALIVE).

(** The contribution of the neighbour at offset (i, j) to the count. *)
Definition neighbour_bit (g : Grid) (R C row col i j : Z) : Z :=
  Z.b2z (is_alive g ((row + i) mod R) ((col + j) mod C)).

End Java.

(** ** The React component App *)

Module JS.

(** The numbers that occur are integers (far below 2^53, so exact) and NaN. *)
Inductive num : Type := Int (z : Z) | NaN.

Definition ALIVE : Z := 1.
Definition DEAD : Z := 0.

(** [a % b] on integers: the sign of [a]; NaN when [b] is 0. *)
Definition rem (a b : Z) : num :=
  if decide (b = 0) then NaN else Int (Z.rem a b).

(** [a[i]]; [None] is [undefined]. *)
Definition at_index {A} (a : list A) (i : num) : option A :=
  match i with
  | Int z => if decide (0 <= z) then a !! Z.to_nat z else None
  | NaN => None
  end.

(** [count + v], where [v] may be [undefined]. *)
Definition plus (count : num) (v : option Z) : num :=
  match count, v with
  | Int a, Some b => Int (a + b)
  | _, _ => NaN
  end.

(** [n === k] *)
Definition strict_eq (n : num) (k : Z) : bool :=
  match n with
  | Int z => z =? k
  | NaN => false
  end.

(** Truthiness of a number read from the grid. *)
Definition truthy (v : Z) : bool := negb (v =? 0).

Abbreviation Grid := (list (list Z)).

(** [xs.map((x, i) => f(i, x))], where [f] may throw. *)
Fixpoint map_indexed {A B} (f : nat -> A -> option B) (i : nat) (xs : list A)
  : option (list B) :=
  match xs with
  | [] => Some []
  | x :: xs' =>
      y ← f i x;
      ys ← map_indexed f (S i) xs';
      Some (y :: ys)
  end.

(** [Array.from({ length: r }, () => Array.from({ length: c }, () => 0))] *)
Definition buildEmptyGrid (r c : nat) : Grid := replicate r (replicate c 0).

Definition dirs : list (Z * Z) :=
  [ (-1, -1); (-1, 0); (-1, 1);
    (0, -1);           (0, 1);
    (1, -1);  (1, 0);  (1, 1) ].

Section App.

(** The state variables [rows] and [cols]; their setters are never called. *)
Variables rows cols : nat.

(** Reading [g[newR][newC]] throws a TypeError when [g[newR]] is
    undefined ([None]); an undefined cell turns the count into NaN. *)
Definition neighbourCount (r c : Z) (g : Grid) : option num :=
  for_each (fun count d =>
    let newR := rem (r + d.1 + Z.of_nat rows) (Z.of_nat rows) in
    let newC := rem (c + d.2 + Z.of_nat cols) (Z.of_nat cols) in
    line ← at_index g newR;
    Some (plus count (at_index line newC)))
    (Int 0) dirs.

(** The callback of the inner [map] of [nextGen]. *)
Definition nextCell (cell : Z) (n : num) : Z :=
  if cell =? ALIVE then
    if strict_eq n 2 || strict_eq n 3 then ALIVE else DEAD
  else
    if strict_eq n 3 then ALIVE else DEAD.

Definition nextGen (current : Grid) : option Grid :=
  map_indexed (fun r row =>
    map_indexed (fun c cell =>
      n ← neighbourCount (Z.of_nat r) (Z.of_nat c) current;
      Some (nextCell cell n))
      0%nat row)
    0%nat current.

(** The state of the component that the actions read and write. *)
Record State : Type := mkState {
  grid : Grid;
  running : bool;
  generation : Z
}.

Definition initial : State :=
  {| grid := buildEmptyGrid 30 50; running := false; generation := 0 |}.

(** [toggleCell]: the copy of the grid with cell (r, c) replaced.  A
    missing row throws (TypeError).  A missing cell in an existing row
    would make the JS array grow; no grid of the component has that
    shape, and the model returns [None] there as well. *)
Definition toggleCell (r c : nat) (st : State) : option State :=
  if running st then Some st
  else
    let g := grid st in
    line ← g !! r;
    v ← line !! c;
    Some {| grid := <[r := <[c := if truthy v then DEAD else ALIVE]> line]> g;
            running := running st;
            generation := generation st |}.

Definition runToggle (st : State) : State :=
  {| grid := grid st; running := negb (running st);
     generation := generation st |}.

Definition step (st : State) : option State :=
  if running st then Some st
  else
    g ← nextGen (grid st);
    Some {| grid := g; running := running st;
            generation := generation st + 1 |}.

(** The interval callback installed while [running]. *)
Definition tick (st : State) : option State :=
  if negb (running st) then Some st
  else
    g ← nextGen (grid st);
    Some {| grid := g; running := running st;
            generation := generation st + 1 |}.

Definition clear (st : State) : State :=
  {| grid := buildEmptyGrid rows cols; running := false; generation := 0 |}.

(** [randomise]: [draw k] tells whether the k-th call of [Math.random()]
    returned more than 0.7; the rows are built in order, and the cells of a
    row in order. *)
Definition randomise (draw : nat -> bool) (st : State) : State :=
  {| grid := map (fun r =>
               map (fun c => if draw (r * cols + c)%nat then ALIVE else DEAD)
                 (seq 0 cols))
               (seq 0 rows);
     running := false;
     generation := 0 |}.

(** What the user and the timer can do to the component: a click on a cell,
    the four buttons, and the interval callback. *)
Inductive Action : Type :=
  | Toggle (r c : nat)
  | RunToggle
  | Step
  | Tick
  | Clear
  | Randomise (draw : nat -> bool).

Definition perform (a : Action) (st : State) : option State :=
  match a with
  | Toggle r c => toggleCell r c st
  | RunToggle => Some (runToggle st)
  | Step => step st
  | Tick => tick st
  | Clear => Some (clear st)
  | Randomise draw => Some (randomise draw st)
  end.

(** A sequence of actions, one after the other; an exception ends it. *)
Definition run (actions : list Action) (st : State) : option State :=
  for_each (fun st a => perform a st) st actions.

End App.

(** *** Observations used in the statements *)

(** [g[r][c]] *)
Definition read2 (g : Grid) (r c : Z) : option Z :=
  line ← at_index g (Int r); at_index line (Int c).

(** Whether cell (r, c) exists and is alive. *)
Definition is_alive (g : Grid) (r c : Z) : bool :=
  bool_decide (read2 g r c = Some ALIVE).

Definition value_at (g : Grid) (r c : Z) : Z := default 0 (read2 g r c).

(** The two encodings of a cell state: the numbers of the component and
    the booleans of the Java class. *)
Definition decode (v : Z) : bool := v =? ALIVE.
Definition encode (b : bool) : Z := if b then ALIVE else DEAD.

End JS.


(** The number of live cells present in a Java grid. *)
Definition alive_total (g : list (list bool)) : Z :=
  Z.of_nat (length (filter (fun b : bool => b = true) (concat g))).

(** ** Live cells and adjacency on the torus *)

(** The neighbour of [p] at offset [d]. *)
Definition torus_shift (R C : Z) (p d : Z * Z) : Z * Z :=
  ((p.1 + d.1) mod R, (p.2 + d.2) mod C).

(** All coordinates of an R-by-C grid, in row-major order. *)
Definition cells (R C : Z) : list (Z * Z) :=
  r ← seqZ 0 R; pair r <$> seqZ 0 C.

(** The coordinates of the live cells, in row-major order. *)
Definition live_cells (R C : Z) (g : list (list bool)) : list (Z * Z) :=
  filter (fun p => Java.is_alive g p.1 p.2 = true) (cells R C).

(** The live neighbours of [p], in the order of the scan. *)
Definition live_neighbours (R C : Z) (g : list (list bool)) (p : Z * Z)
  : list (Z * Z) :=
  torus_shift R C p <$>
    filter (fun d => Java.is_alive g (torus_shift R C p d).1
                                     (torus_shift R C p d).2 = true) offsets8.

(** The calls of [union] made by the first pass of [numOfCommunities], in
    order: every live cell with every live neighbour. *)
Definition union_calls (R C : Z) (g : list (list bool))
  : list ((Z * Z) * (Z * Z)) :=
  p ← live_cells R C g; pair p <$> live_neighbours R C g p.

(** The flattened index of a cell. *)
Definition flat_index (C : Z) (p : Z * Z) : Z := p.1 * C + p.2.

(** The disjoint-set structure right after construction: every cell is its
    own root. *)
Definition fresh_forest (R C : Z) : Java.WeightedQuickUnionUF :=
  {| Java.parent := seqZ 0 (R * C);
     Java.size := replicate (Z.to_nat (R * C)) 1;
     Java.ufCols := C |}.

(** The structure after the cell of index [ib] was hung under the cell of
    index [ia], both being single cells before. *)
Definition linked_forest (R C ia ib : Z) : Java.WeightedQuickUnionUF :=
  {| Java.parent := Java.aset (seqZ 0 (R * C)) ib ia;
     Java.size := Java.aset (replicate (Z.to_nat (R * C)) 1) ia 2;
     Java.ufCols := C |}.

(** ** The states of the component *)

(** The grid has the shape the component was built for and holds only 0
    and 1. *)
Definition well_formed (rows cols : nat) (st : JS.State) : Prop :=
  rect rows cols (JS.grid st) /\ binary (JS.grid st).

(** A click can only come from a cell that is drawn. *)
Definition clickable (rows cols : nat) (a : JS.Action) : Prop :=
  match a with
  | JS.Toggle r c => (r < rows)%nat /\ (c < cols)%nat
  | _ => True
  end.

(** The number of [true] among the booleans of a list. *)
Definition count_true (l : list bool) : Z :=
  Z.of_nat (length (filter (fun b : bool => b = true) l)).

(** ** Sample grids *)

(** A vertical bar on the 3-by-3 torus, in both representations. *)
Definition bar3_js : list (list Z) := [[0; 1; 0]; [0; 1; 0]; [0; 1; 0]].

Definition bar3_java : list (list bool) :=
  [[false; true; false]; [false; true; false]; [false; true; false]].

(** Grids of 3 rows and 5 columns: no live cell; one live cell; two live
    cells that touch only across the left and right edges; two live cells
    that do not touch. *)
Definition none35 : list (list bool) :=
  [ [false; false; false; false; false];
    [false; false; false; false; false];
    [false; false; false; false; false] ].

Definition single35 : list (list bool) :=
  [ [false; false; false; false; false];
    [false; false; true;  false; false];
    [false; false; false; false; false] ].

Definition wrapped_pair35 : list (list bool) :=
  [ [true;  false; false; false; true];
    [false; false; false; false; false];
    [false; false; false; false; false] ].

Definition far_pair35 : list (list bool) :=
  [ [true;  false; false; false; false];
    [false; false; true;  false; false];
    [false; false; false; false; false] ].

(** Three live cells on the 5-by-5 torus, no two of them neighbours. *)
Definition scattered55 : list (list bool) :=
  [ [true;  false; false; true;  false];
    [false; false; false; false; false];
    [false; false; true;  false; false];
    [false; false; false; false; false];
    [false; false; false; false; false] ].

(** * Properties *)

Lemma b2z_range (b : bool) : 0 <= Z.b2z b <= 1.
Proof. destruct b; simpl; lia. Qed.

Lemma count_alive_range alive ps :
  0 <= count_alive alive ps <= Z.of_nat (length ps).
Proof.
  induction ps as [|p ps IH]; simpl; [lia|].
  pose proof (b2z_range (alive p.1 p.2)). lia.
Qed.

Lemma rect_lookup {A} R C (g : list (list A)) r line :
  rect R C g -> g !! r = Some line -> length line = C.
Proof.
  intros [_ Hall] Hr. rewrite Forall_lookup in Hall. eauto.
Qed.

Lemma rect_row {A} R C (g : list (list A)) (r : nat) :
  rect R C g -> (r < R)%nat -> exists line, g !! r = Some line /\ length line = C.
Proof.
  intros Hg Hr. destruct (lookup_lt_is_Some_2 g r) as [line Hl].
  - destruct Hg as [-> _]. exact Hr.
  - exists line. split; [exact Hl|]. eapply rect_lookup; eauto.
Qed.

Lemma rect_cell {A} R C (g : list (list A)) (r c : nat) :
  rect R C g -> (r < R)%nat -> (c < C)%nat ->
  exists line v, g !! r = Some line /\ line !! c = Some v.
Proof.
  intros Hg Hr Hc. destruct (rect_row R C g r Hg Hr) as (line & Hl & Hlen).
  destruct (lookup_lt_is_Some_2 line c) as [v Hv]; [lia|]. eauto.
Qed.

Module JavaFacts.
Import Java.

Lemma wrap32_small z : - 2 ^ 31 <= z < 2 ^ 31 -> wrap32 z = z.
Proof.
  intros Hz. unfold wrap32. rewrite Z.mod_small; lia.
Qed.

(** Below 2^30 the index arithmetic of the scans does not wrap, and the
    remainder of the shifted coordinate is the coordinate modulo the
    extent. *)
Lemma torus_index n x d :
  0 < n < 2 ^ 30 -> 0 <= x < n -> -1 <= d <= 1 ->
  irem (iadd (iadd x d) n) n = Some ((x + d) mod n).
Proof.
  intros Hn Hx Hd. unfold irem, iadd.
  rewrite (wrap32_small (x + d)) by lia.
  rewrite wrap32_small by lia.
  destruct (decide (n = 0)) as [->|_]; [lia|].
  f_equal. rewrite Z.rem_mod_nonneg by lia.
  replace (x + d + n) with (x + d + 1 * n) by lia.
  apply Z.mod_add. lia.
Qed.

Lemma aget_nat {A} (a : list A) (i : nat) : aget a (Z.of_nat i) = a !! i.
Proof.
  unfold aget. destruct (decide (0 <= Z.of_nat i)); [|lia].
  by rewrite Nat2Z.id.
Qed.

Lemma aget_in_range {A} (a : list A) (i : Z) :
  0 <= i < alen a -> exists v, aget a i = Some v.
Proof.
  intros Hi. unfold aget, alen in *.
  destruct (decide (0 <= i)); [|lia].
  apply lookup_lt_is_Some_2. lia.
Qed.

Lemma aget_row R C (g : Grid) (r : Z) :
  rect R C g -> 0 <= r < Z.of_nat R ->
  exists line, aget g r = Some line /\ alen line = Z.of_nat C.
Proof.
  intros Hg Hr.
  destruct (rect_row R C g (Z.to_nat r) Hg) as (line & Hl & Hlen); [lia|].
  exists line. unfold aget, alen.
  destruct (decide (0 <= r)); [|lia]. by rewrite Hlen.
Qed.

Lemma aget2_in_range R C (g : Grid) (r c : Z) :
  rect R C g -> 0 <= r < Z.of_nat R -> 0 <= c < Z.of_nat C ->
  exists b, aget2 g r c = Some b /\ is_alive g r c = b.
Proof.
  intros Hg Hr Hc.
  destruct (aget_row R C g r Hg Hr) as (line & Hl & Hlen).
  destruct (aget_in_range line c) as [b Hb]; [lia|].
  exists b. unfold is_alive, aget2. rewrite Hl. simpl. rewrite Hb.
  split; [done|]. unfold ALIVE. destruct b; by vm_compute.
Qed.

Lemma neighbour_bit_range g R C row col i j :
  0 <= neighbour_bit g R C row col i j <= 1.
Proof. apply b2z_range. Qed.

(** One pass of the inner body of the neighbourhood scan. *)
Lemma scan_body R C (g : Grid) (row col i j n : Z) :
  rect R C g ->
  0 < Z.of_nat R < 2 ^ 30 -> 0 < Z.of_nat C < 2 ^ 30 ->
  0 <= row < Z.of_nat R -> 0 <= col < Z.of_nat C ->
  -1 <= i <= 1 -> -1 <= j <= 1 -> 0 <= n < 8 ->
  (neighboringRow ← irem (iadd (iadd row i) (alen g)) (alen g);
   line ← aget g row;
   neighboringCol ← irem (iadd (iadd col j) (alen line)) (alen line);
   cell ← aget2 g neighboringRow neighboringCol;
   Some (if bool_decide (cell = ALIVE) then iadd n 1 else n))
  = Some (n + neighbour_bit g (Z.of_nat R) (Z.of_nat C) row col i j).
Proof.
  intros Hg HR HC Hrow Hcol Hi Hj Hn. unfold neighbour_bit.
  assert (alen g = Z.of_nat R) as -> by (unfold alen; by destruct Hg as [-> _]).
  rewrite torus_index by done. simpl.
  destruct (aget_row R C g row Hg Hrow) as (line & -> & Hlen). simpl.
  rewrite Hlen, torus_index by done. simpl.
  destruct (aget2_in_range R C g ((row + i) mod Z.of_nat R)
              ((col + j) mod Z.of_nat C) Hg) as (b & -> & ->).
  { apply Z.mod_pos_bound. lia. }
  { apply Z.mod_pos_bound. lia. }
  simpl. f_equal. unfold ALIVE, iadd.
  destruct b; simpl; [apply wrap32_small|]; lia.
Qed.

(** [numOfAliveNeighbors] counts the live cells of the toroidal
    neighbourhood. *)
Lemma numOfAliveNeighbors_spec R C (g : Grid) (row col : Z) :
  rect R C g ->
  0 < Z.of_nat R < 2 ^ 30 -> 0 < Z.of_nat C < 2 ^ 30 ->
  0 <= row < Z.of_nat R -> 0 <= col < Z.of_nat C ->
  numOfAliveNeighbors g row col
  = Some (count_alive (is_alive g)
            (torus_neighbours (Z.of_nat R) (Z.of_nat C) row col)).
Proof.
  intros Hg HR HC Hrow Hcol.
  unfold numOfAliveNeighbors, torus_neighbours, offsets8, deltas.
  cbn [for_each map count_alive foldr fst snd Z.eqb andb].
  pose proof (neighbour_bit_range g (Z.of_nat R) (Z.of_nat C) row col) as Ha.
  pose proof (Ha (-1) (-1)). pose proof (Ha (-1) 0). pose proof (Ha (-1) 1).
  pose proof (Ha 0 (-1)). pose proof (Ha 0 1).
  pose proof (Ha 1 (-1)). pose proof (Ha 1 0). pose proof (Ha 1 1).
  repeat (rewrite (scan_body R C) by (first [done | lia]);
          cbn [for_each Z.eqb andb]).
  f_equal. unfold neighbour_bit. lia.
Qed.

Lemma newCell_life_rule cell n : newCell cell n = life_rule cell n.
Proof.
  unfold newCell, life_rule, ALIVE, DEAD.
  destruct cell; simpl;
    repeat match goal with
           | |- context [?a <? ?b] => destruct (Z.ltb_spec a b)
           | |- context [?a >? ?b] => destruct (Z.gtb_spec a b)
           | |- context [?a <=? ?b] => destruct (Z.leb_spec a b)
           | |- context [?a =? ?b] => destruct (Z.eqb_spec a b)
           end; simpl; try reflexivity; lia.
Qed.

Lemma mapM_total {A B} (f : A -> option B) (h : A -> B) (l : list A) :
  (forall x, x ∈ l -> f x = Some (h x)) -> mapM f l = Some (map h l).
Proof.
  intros Hf. apply mapM_Some. apply Forall2_fmap_r, Forall_Forall2_diag.
  apply Forall_forall. exact Hf.
Qed.

(** [computeNewGrid] succeeds on a rectangular grid and returns the
    generation step of the specification. *)
Lemma computeNewGrid_spec R C (g : Grid) :
  rect R C g ->
  0 < Z.of_nat R < 2 ^ 30 -> 0 <= Z.of_nat C < 2 ^ 30 ->
  computeNewGrid g
  = Some (torus_step (is_alive g) (Z.of_nat R) (Z.of_nat C)).
Proof.
  intros Hg HR HC. unfold computeNewGrid, torus_step.
  destruct (aget_row R C g 0 Hg) as (line0 & -> & Hlen0); [lia|]. simpl.
  rewrite Hlen0.
  assert (alen g = Z.of_nat R) as -> by (unfold alen; by destruct Hg as [-> _]).
  apply mapM_total. intros row Hrow%elem_of_seqZ.
  apply mapM_total. intros col Hcol%elem_of_seqZ.
  rewrite (numOfAliveNeighbors_spec R C) by (first [done | lia]). simpl.
  destruct (aget2_in_range R C g row col Hg) as (b & -> & ->); [lia..|].
  simpl. by rewrite newCell_life_rule.
Qed.

Lemma torus_step_rect alive (R C : nat) :
  rect R C (torus_step alive (Z.of_nat R) (Z.of_nat C)).
Proof.
  unfold torus_step. split.
  - rewrite length_map, length_seqZ. lia.
  - apply Forall_map, Forall_forall. intros r _. simpl.
    rewrite length_map, length_seqZ. lia.
Qed.

Lemma torus_step_cell alive (R C r c : Z) :
  0 <= r < R -> 0 <= c < C ->
  aget2 (torus_step alive R C) r c
  = Some (life_rule (alive r c)
            (count_alive alive (torus_neighbours R C r c))).
Proof.
  intros Hr Hc. unfold aget2, aget, torus_step.
  destruct (decide (0 <= r)); [|lia].
  rewrite list_lookup_fmap, lookup_seqZ_lt by lia. simpl.
  destruct (decide (0 <= c)); [|lia].
  rewrite list_lookup_fmap, lookup_seqZ_lt by lia. simpl.
  by rewrite !Z2Nat.id by lia.
Qed.

End JavaFacts.

Module JSFacts.
Import JS.

Lemma decode_encode b : decode (encode b) = b.
Proof. by destruct b. Qed.

Lemma rem_torus_index n x d :
  0 < n -> 0 <= x < n -> -1 <= d <= 1 ->
  rem (x + d + n) n = Int ((x + d) mod n).
Proof.
  intros Hn Hx Hd. unfold rem.
  destruct (decide (n = 0)) as [->|_]; [lia|].
  f_equal. rewrite Z.rem_mod_nonneg by lia.
  replace (x + d + n) with (x + d + 1 * n) by lia.
  apply Z.mod_add. lia.
Qed.

Lemma at_index_row rows cols (g : Grid) (r : Z) :
  rect rows cols g -> 0 <= r < Z.of_nat rows ->
  exists line, at_index g (Int r) = Some line /\ length line = cols.
Proof.
  intros Hg Hr.
  destruct (rect_row rows cols g (Z.to_nat r) Hg) as (line & Hl & Hlen); [lia|].
  exists line. simpl. destruct (decide (0 <= r)); [by split|lia].
Qed.

Lemma read2_in_range rows cols (g : Grid) (r c : Z) :
  rect rows cols g -> 0 <= r < Z.of_nat rows -> 0 <= c < Z.of_nat cols ->
  exists v, read2 g r c = Some v.
Proof.
  intros Hg Hr Hc.
  destruct (at_index_row rows cols g r Hg Hr) as (line & Hl & Hlen).
  unfold read2. rewrite Hl. simpl.
  destruct (decide (0 <= c)); [|lia].
  apply lookup_lt_is_Some_2. lia.
Qed.

Lemma read2_nat (g : Grid) (r c : nat) :
  read2 g (Z.of_nat r) (Z.of_nat c) = (line ← g !! r; line !! c).
Proof.
  unfold read2, at_index. rewrite !Nat2Z.id.
  destruct (decide (0 <= Z.of_nat r)); [|lia].
  destruct (g !! r) as [line|]; simpl; [|done].
  destruct (decide (0 <= Z.of_nat c)); [done|lia].
Qed.

Lemma binary_read2 (g : Grid) r c v :
  binary g -> read2 g r c = Some v -> v = 0 \/ v = 1.
Proof.
  unfold binary, read2. intros Hb Hv. simpl in Hv.
  destruct (decide (0 <= r)); [|done].
  destruct (g !! Z.to_nat r) as [line|] eqn:Hl; [|done]. simpl in Hv.
  destruct (decide (0 <= c)); [|done].
  rewrite Forall_lookup in Hb. specialize (Hb _ _ Hl).
  rewrite Forall_lookup in Hb. eauto.
Qed.

(** On a grid of zeros and ones the value of a cell is its live bit. *)
Lemma binary_value (g : Grid) r c :
  binary g -> value_at g r c = Z.b2z (is_alive g r c).
Proof.
  intros Hb. unfold value_at, is_alive.
  destruct (read2 g r c) as [v|] eqn:Hv; [|done].
  destruct (binary_read2 g r c v Hb Hv) as [-> | ->]; done.
Qed.

Lemma binary_sum (g : Grid) ps :
  binary g -> sum_values (value_at g) ps = count_alive (is_alive g) ps.
Proof.
  intros Hb. induction ps as [|p ps IH]; [done|]. simpl.
  by rewrite IH, binary_value.
Qed.

(** One pass of the loop over [dirs]. *)
Lemma dir_body rows cols (g : Grid) (r c dr dc n : Z) :
  rect rows cols g ->
  0 <= r < Z.of_nat rows -> 0 <= c < Z.of_nat cols ->
  -1 <= dr <= 1 -> -1 <= dc <= 1 ->
  (line ← at_index g (rem (r + dr + Z.of_nat rows) (Z.of_nat rows));
   Some (plus (Int n)
           (at_index line (rem (c + dc + Z.of_nat cols) (Z.of_nat cols)))))
  = Some (Int (n + value_at g ((r + dr) mod Z.of_nat rows)
                              ((c + dc) mod Z.of_nat cols))).
Proof.
  intros Hg Hr Hc Hdr Hdc.
  rewrite !rem_torus_index by lia.
  assert (0 <= (r + dr) mod Z.of_nat rows < Z.of_nat rows) as Hr'
    by (apply Z.mod_pos_bound; lia).
  assert (0 <= (c + dc) mod Z.of_nat cols < Z.of_nat cols) as Hc'
    by (apply Z.mod_pos_bound; lia).
  destruct (read2_in_range rows cols g _ _ Hg Hr' Hc') as [v Hv].
  unfold value_at. rewrite Hv. unfold read2 in Hv.
  destruct (at_index g (Int ((r + dr) mod Z.of_nat rows))) as [line|]; [|done].
  simpl in *. by rewrite Hv.
Qed.

(** [neighbourCount] never meets [undefined] on a grid of the component's
    shape, and returns the sum over the toroidal neighbourhood. *)
Lemma neighbourCount_sum rows cols (g : Grid) (r c : Z) :
  rect rows cols g ->
  0 <= r < Z.of_nat rows -> 0 <= c < Z.of_nat cols ->
  neighbourCount rows cols r c g
  = Some (Int (sum_values (value_at g)
                 (torus_neighbours (Z.of_nat rows) (Z.of_nat cols) r c))).
Proof.
  intros Hg Hr Hc.
  unfold neighbourCount, torus_neighbours, offsets8, dirs.
  cbn [for_each map sum_values foldr fst snd].
  repeat (rewrite (dir_body rows cols) by (first [done | lia]);
          cbn [for_each]).
  do 2 f_equal. lia.
Qed.

Lemma map_indexed_from {A B} (f : nat -> A -> option B) (h : Z -> B) i xs :
  (forall k x, xs !! k = Some x ->
               f (i + k)%nat x = Some (h (Z.of_nat (i + k)))) ->
  map_indexed f i xs
  = Some (map h (seqZ (Z.of_nat i) (Z.of_nat (length xs)))).
Proof.
  revert i. induction xs as [|x xs IH]; intros i Hf; [done|].
  cbn [map_indexed length].
  rewrite seqZ_cons by lia.
  pose proof (Hf 0%nat x eq_refl) as H0. rewrite Nat.add_0_r in H0.
  rewrite H0. simpl.
  rewrite IH.
  - simpl. by rewrite !Nat2Z.inj_succ, Z.pred_succ.
  - intros k y Hk. replace (S i + k)%nat with (i + S k)%nat by lia.
    by apply Hf.
Qed.

Lemma map_indexed_total {A B} (f : nat -> A -> option B) (h : Z -> B) xs :
  (forall k x, xs !! k = Some x -> f k x = Some (h (Z.of_nat k))) ->
  map_indexed f 0 xs = Some (map h (seqZ 0 (Z.of_nat (length xs)))).
Proof. intros Hf. by apply (map_indexed_from f h 0%nat). Qed.

(** The callback of [nextGen] applies the rule of the specification. *)
Lemma nextCell_life_rule cell n :
  cell = 0 \/ cell = 1 ->
  nextCell cell (Int n) = encode (life_rule (decode cell) n).
Proof.
  unfold nextCell, life_rule, decode, encode, strict_eq, ALIVE, DEAD.
  intros [-> | ->]; simpl;
    repeat match goal with
           | |- context [?a <? ?b] => destruct (Z.ltb_spec a b)
           | |- context [?a <=? ?b] => destruct (Z.leb_spec a b)
           | |- context [?a =? ?b] => destruct (Z.eqb_spec a b)
           end; simpl; try reflexivity; lia.
Qed.

(** [nextGen] succeeds on a grid of the component's shape and returns the
    generation step of the specification, written with 0 and 1. *)
Lemma nextGen_spec rows cols (g : Grid) :
  rect rows cols g -> binary g ->
  nextGen rows cols g
  = Some (map (map encode)
            (torus_step (is_alive g) (Z.of_nat rows) (Z.of_nat cols))).
Proof.
  intros Hg Hb. unfold nextGen, torus_step.
  rewrite map_map.
  pose proof Hg as [Hlen _].
  replace (seqZ 0 (Z.of_nat rows)) with (seqZ 0 (Z.of_nat (length g)))
    by (by rewrite Hlen).
  apply map_indexed_total. intros r row Hrow.
  pose proof (lookup_lt_Some _ _ _ Hrow) as Hr.
  pose proof (rect_lookup rows cols g r row Hg Hrow) as Hrl.
  rewrite map_map.
  replace (seqZ 0 (Z.of_nat cols)) with (seqZ 0 (Z.of_nat (length row)))
    by (by rewrite Hrl).
  apply map_indexed_total. intros c cell Hcell.
  pose proof (lookup_lt_Some _ _ _ Hcell) as Hc.
  rewrite (neighbourCount_sum rows cols) by (first [done | lia]).
  rewrite binary_sum by done. cbn [mbind option_bind]. f_equal.
  assert (read2 g (Z.of_nat r) (Z.of_nat c) = Some cell) as Hread
    by (by rewrite read2_nat, Hrow).
  rewrite nextCell_life_rule by (by eapply binary_read2). f_equal.
  f_equal. unfold is_alive, decode. rewrite Hread.
  destruct (Z.eqb_spec cell ALIVE) as [->|Hne].
  - by rewrite bool_decide_eq_true_2.
  - rewrite bool_decide_eq_false_2; [done|]. congruence.
Qed.

End JSFacts.

(** ** Loops *)

Lemma for_each_app {A B} (f : A -> B -> option A) acc xs ys :
  for_each f acc (xs ++ ys) = (a ← for_each f acc xs; for_each f a ys).
Proof.
  revert acc. induction xs as [|x xs IH]; intros acc; [done|]. simpl.
  destruct (f acc x); [apply IH|done].
Qed.

Lemma for_each_ext {A B} (f h : A -> B -> option A) acc xs :
  (forall a x, x ∈ xs -> f a x = h a x) ->
  for_each f acc xs = for_each h acc xs.
Proof.
  revert acc. induction xs as [|x xs IH]; intros acc Hfh; [done|]. simpl.
  rewrite (Hfh acc x) by apply list_elem_of_here.
  destruct (h acc x); [|done].
  apply IH. intros a' y Hy. apply Hfh. by apply list_elem_of_further.
Qed.

Lemma for_each_fmap {A B D} (f : A -> B -> option A) (k : D -> B) acc xs :
  for_each f acc (k <$> xs) = for_each (fun a x => f a (k x)) acc xs.
Proof.
  revert acc. induction xs as [|x xs IH]; intros acc; [done|]. simpl.
  destruct (f acc (k x)); [apply IH|done].
Qed.

(** Two nested loops are one loop over the pairs. *)
Lemma for_each_nest {A B D} (f : B -> A -> D -> option A) (ys : B -> list D)
    acc xs :
  for_each (fun a x => for_each (f x) a (ys x)) acc xs
  = for_each (fun a p => f p.1 a p.2) acc (x ← xs; pair x <$> ys x).
Proof.
  revert acc. induction xs as [|x xs IH]; intros acc; [done|].
  rewrite bind_cons, for_each_app, for_each_fmap. simpl.
  destruct (for_each (f x) acc (ys x)); [apply IH|done].
Qed.

(** A loop that skips the elements failing a test is a loop over the
    others. *)
Lemma for_each_filter {A B} (P : B -> Prop) `{forall x, Decision (P x)}
    (f : A -> B -> option A) acc xs :
  for_each (fun a x => if decide (P x) then f a x else Some a) acc xs
  = for_each f acc (filter P xs).
Proof.
  revert acc. induction xs as [|x xs IH]; intros acc; [done|].
  rewrite filter_cons. simpl. destruct (decide (P x)); simpl.
  - destruct (f acc x); [apply IH|done].
  - apply IH.
Qed.

(** A loop whose body gives back its accumulator does nothing. *)
Lemma for_each_fixed {A B} (f : A -> B -> option A) acc xs :
  (forall x, x ∈ xs -> f acc x = Some acc) -> for_each f acc xs = Some acc.
Proof.
  induction xs as [|x xs IH]; intros Hf; [done|]. simpl.
  rewrite Hf by apply list_elem_of_here.
  apply IH. intros y Hy. apply Hf. by apply list_elem_of_further.
Qed.

(** ** The cells of a grid *)

Lemma elem_of_cells R C p :
  p ∈ cells R C <-> 0 <= p.1 < R /\ 0 <= p.2 < C.
Proof.
  unfold cells. rewrite list_elem_of_bind. split.
  - intros (r & Hp & Hr). apply list_elem_of_fmap in Hp as (c & -> & Hc).
    apply elem_of_seqZ in Hr, Hc. simpl. lia.
  - intros [Hr Hc]. exists p.1. split.
    + apply list_elem_of_fmap. exists p.2. split; [by destruct p|].
      apply elem_of_seqZ. lia.
    + apply elem_of_seqZ. lia.
Qed.

Lemma torus_shift_in_range R C p d :
  0 < R -> 0 < C -> torus_shift R C p d ∈ cells R C.
Proof.
  intros HR HC. apply elem_of_cells. unfold torus_shift. simpl.
  split; apply Z.mod_pos_bound; lia.
Qed.

Lemma torus_neighbours_shift R C p :
  torus_neighbours R C p.1 p.2 = torus_shift R C p <$> offsets8.
Proof. reflexivity. Qed.

Lemma elem_of_live_cells R C g p :
  p ∈ live_cells R C g <->
  Java.is_alive g p.1 p.2 = true /\ p ∈ cells R C.
Proof. unfold live_cells. by rewrite list_elem_of_filter. Qed.

Lemma elem_of_live_neighbours R C g p q :
  0 < R -> 0 < C ->
  q ∈ live_neighbours R C g p <->
  q ∈ torus_neighbours R C p.1 p.2 /\ q ∈ live_cells R C g.
Proof.
  intros HR HC. unfold live_neighbours.
  rewrite torus_neighbours_shift, elem_of_live_cells, !list_elem_of_fmap.
  split.
  - intros (d & -> & Hd). apply list_elem_of_filter in Hd as [Hlive Hd].
    split; [by exists d|]. split; [done|]. by apply torus_shift_in_range.
  - intros [(d & -> & Hd) [Hlive _]]. exists d. split; [done|].
    by apply list_elem_of_filter.
Qed.

(** ** The two loop nests of [numOfCommunities] as flat loops *)

Module CommunityFacts.
Import Java JavaFacts.

Lemma elem_of_deltas i : i ∈ deltas -> -1 <= i <= 1.
Proof. unfold deltas. rewrite !elem_of_cons, elem_of_nil. lia. Qed.

Section Grid.
Variables (R C : nat) (g : Grid).
Hypothesis Hg : rect R C g.
Hypothesis HR : 0 < Z.of_nat R < 2 ^ 30.
Hypothesis HC : 0 < Z.of_nat C < 2 ^ 30.

Local Abbreviation ZR := (Z.of_nat R).
Local Abbreviation ZC := (Z.of_nat C).

Lemma alen_grid : alen g = ZR.
Proof. unfold alen. by destruct Hg as [-> _]. Qed.

(** The innermost body: one neighbour of one live cell. *)
Lemma visit_neighbour uf row col i j :
  0 <= row < ZR -> 0 <= col < ZC -> -1 <= i <= 1 -> -1 <= j <= 1 ->
  (if (i =? 0) && (j =? 0) then Some uf
   else
     neighboringRow ← irem (iadd (iadd row i) (alen g)) (alen g);
     neighboringCol ← irem (iadd (iadd col j) ZC) ZC;
     neighbour ← aget2 g neighboringRow neighboringCol;
     if bool_decide (neighbour = ALIVE)
     then union uf row col neighboringRow neighboringCol
     else Some uf)
  = if decide ((i, j) <> (0, 0) /\
               is_alive g (torus_shift ZR ZC (row, col) (i, j)).1
                          (torus_shift ZR ZC (row, col) (i, j)).2 = true)
    then union uf row col (torus_shift ZR ZC (row, col) (i, j)).1
                          (torus_shift ZR ZC (row, col) (i, j)).2
    else Some uf.
Proof.
  intros Hrow Hcol Hi Hj. unfold torus_shift. cbn [fst snd].
  destruct ((i =? 0) && (j =? 0)) eqn:Hz.
  { apply andb_prop in Hz as [->%Z.eqb_eq ->%Z.eqb_eq].
    destruct (decide _) as [[Hne _]|_]; [done|done]. }
  assert ((i, j) <> (0, 0)) as Hne.
  { intros [= -> ->]. discriminate. }
  rewrite alen_grid, !torus_index by done. cbn [mbind option_bind].
  destruct (aget2_in_range R C g ((row + i) mod ZR) ((col + j) mod ZC) Hg)
    as (b & -> & Hb); [by apply Z.mod_pos_bound; lia..|].
  cbn [mbind option_bind]. rewrite Hb. unfold ALIVE.
  destruct b.
  - rewrite bool_decide_eq_true_2 by done.
    destruct (decide _) as [_|Hn]; [done|]. by destruct Hn.
  - rewrite bool_decide_eq_false_2 by done.
    destruct (decide _) as [[_ ?]|_]; done.
Qed.

Lemma nine_offsets :
  filter (fun d : Z * Z => d <> (0, 0)) (i ← deltas; pair i <$> deltas)
  = offsets8.
Proof. reflexivity. Qed.

(** The scan of the neighbourhood of a live cell. *)
Lemma visit_neighbours uf row col :
  0 <= row < ZR -> 0 <= col < ZC ->
  for_each (fun uf i =>
    for_each (fun uf j =>
      if (i =? 0) && (j =? 0) then Some uf
      else
        neighboringRow ← irem (iadd (iadd row i) (alen g)) (alen g);
        neighboringCol ← irem (iadd (iadd col j) ZC) ZC;
        neighbour ← aget2 g neighboringRow neighboringCol;
        if bool_decide (neighbour = ALIVE)
        then union uf row col neighboringRow neighboringCol
        else Some uf)
      uf deltas)
    uf deltas
  = for_each (fun uf q => union uf row col q.1 q.2) uf
      (live_neighbours ZR ZC g (row, col)).
Proof.
  intros Hrow Hcol.
  rewrite (for_each_nest (fun i uf j =>
    if (i =? 0) && (j =? 0) then Some uf
    else
      neighboringRow ← irem (iadd (iadd row i) (alen g)) (alen g);
      neighboringCol ← irem (iadd (iadd col j) ZC) ZC;
      neighbour ← aget2 g neighboringRow neighboringCol;
      if bool_decide (neighbour = ALIVE)
      then union uf row col neighboringRow neighboringCol
      else Some uf) (fun _ => deltas)).
  rewrite (for_each_ext _ (fun uf d =>
    if decide (d <> (0, 0) /\
               is_alive g (torus_shift ZR ZC (row, col) d).1
                          (torus_shift ZR ZC (row, col) d).2 = true)
    then union uf row col (torus_shift ZR ZC (row, col) d).1
                          (torus_shift ZR ZC (row, col) d).2
    else Some uf)); cycle 1.
  { intros a d Hd. apply list_elem_of_bind in Hd as (i & Hd & Hi).
    apply list_elem_of_fmap in Hd as (j & -> & Hj). cbn [fst snd].
    apply visit_neighbour; auto using elem_of_deltas. }
  rewrite (for_each_filter
    (fun d => d <> (0, 0) /\
              is_alive g (torus_shift ZR ZC (row, col) d).1
                         (torus_shift ZR ZC (row, col) d).2 = true)
    (fun uf d => union uf row col (torus_shift ZR ZC (row, col) d).1
                                  (torus_shift ZR ZC (row, col) d).2)).
  unfold live_neighbours. rewrite for_each_fmap.
  rewrite <- nine_offsets, list_filter_filter. f_equal.
  apply list_filter_iff. intros d. tauto.
Qed.

(** The first loop nest makes exactly the calls of [union_calls]. *)
Lemma uniteLiveCells_flat uf0 :
  uniteLiveCells g ZC uf0
  = for_each (fun uf e => union uf e.1.1 e.1.2 e.2.1 e.2.2) uf0
      (union_calls ZR ZC g).
Proof.
  unfold uniteLiveCells.
  replace (seqZ 0 (alen g)) with (seqZ 0 ZR) by (by rewrite alen_grid).
  rewrite (for_each_nest (fun row uf col =>
    cell ← aget2 g row col;
    if bool_decide (cell = ALIVE) then
      for_each (fun uf i =>
        for_each (fun uf j =>
          if (i =? 0) && (j =? 0) then Some uf
          else
            neighboringRow ← irem (iadd (iadd row i) (alen g)) (alen g);
            neighboringCol ← irem (iadd (iadd col j) ZC) ZC;
            neighbour ← aget2 g neighboringRow neighboringCol;
            if bool_decide (neighbour = ALIVE)
            then union uf row col neighboringRow neighboringCol
            else Some uf)
          uf deltas)
        uf deltas
    else Some uf) (fun _ => seqZ 0 ZC)).
  fold (cells ZR ZC).
  rewrite (for_each_ext _ (fun uf p =>
    if decide (is_alive g p.1 p.2 = true)
    then for_each (fun uf q => union uf p.1 p.2 q.1 q.2) uf
           (live_neighbours ZR ZC g p)
    else Some uf)); cycle 1.
  { intros uf [row col] [Hrow Hcol]%elem_of_cells. cbn [fst snd] in *.
    destruct (aget2_in_range R C g row col Hg Hrow Hcol) as (b & -> & ->).
    cbn [mbind option_bind]. unfold ALIVE. destruct b.
    - rewrite bool_decide_eq_true_2 by done.
      destruct (decide (true = true)); [|done].
      by apply visit_neighbours.
    - rewrite bool_decide_eq_false_2 by done.
      by destruct (decide (false = true)). }
  rewrite (for_each_filter (fun p => is_alive g p.1 p.2 = true)
    (fun uf p => for_each (fun uf q => union uf p.1 p.2 q.1 q.2) uf
                   (live_neighbours ZR ZC g p))).
  fold (live_cells ZR ZC g).
  by rewrite (for_each_nest (fun p uf q => union uf p.1 p.2 q.1 q.2)
               (live_neighbours ZR ZC g)).
Qed.

(** The second loop nest adds the root of every live cell. *)
Lemma collectRoots_flat uf :
  collectRoots g ZC uf
  = for_each (fun lst p => addRoot uf lst p.1 p.2) []
      (live_cells ZR ZC g).
Proof.
  unfold collectRoots.
  replace (seqZ 0 (alen g)) with (seqZ 0 ZR) by (by rewrite alen_grid).
  rewrite (for_each_nest (fun row lst col =>
    cell ← aget2 g row col;
    if bool_decide (cell = ALIVE) then addRoot uf lst row col
    else Some lst) (fun _ => seqZ 0 ZC)).
  fold (cells ZR ZC).
  rewrite (for_each_ext _ (fun lst p =>
    if decide (is_alive g p.1 p.2 = true)
    then addRoot uf lst p.1 p.2 else Some lst)); cycle 1.
  { intros lst [row col] [Hrow Hcol]%elem_of_cells. cbn [fst snd] in *.
    destruct (aget2_in_range R C g row col Hg Hrow Hcol) as (b & -> & ->).
    cbn [mbind option_bind]. unfold ALIVE. destruct b.
    - rewrite bool_decide_eq_true_2 by done.
      by destruct (decide (true = true)).
    - rewrite bool_decide_eq_false_2 by done.
      by destruct (decide (false = true)). }
  by rewrite (for_each_filter (fun p => is_alive g p.1 p.2 = true)
               (fun lst p => addRoot uf lst p.1 p.2)).
Qed.

End Grid.

(** *** The forests that arise with at most two live cells *)

Lemma find_root_self fuel (parent : list Z) i :
  aget parent i = Some i -> find_root (S fuel) parent i = Some i.
Proof.
  intros Hi. cbn [find_root]. rewrite Hi. cbn [mbind option_bind].
  by destruct (decide (i = i)).
Qed.

Lemma find_root_link fuel (parent : list Z) i j :
  aget parent i = Some j -> j <> i -> aget parent j = Some j ->
  find_root (S (S fuel)) parent i = Some j.
Proof.
  intros Hi Hne Hj. cbn [find_root]. rewrite Hi. cbn [mbind option_bind].
  destruct (decide (j = i)); [done|].
  rewrite Hj. cbn [mbind option_bind]. by destruct (decide (j = j)).
Qed.

Lemma aget_seqZ n i : 0 <= i < n -> aget (seqZ 0 n) i = Some i.
Proof.
  intros Hi. unfold aget. destruct (decide (0 <= i)); [|lia].
  rewrite lookup_seqZ_lt by lia. f_equal. lia.
Qed.

Lemma aget_replicate {A} n (x : A) i :
  0 <= i < n -> aget (replicate (Z.to_nat n) x) i = Some x.
Proof.
  intros Hi. unfold aget. destruct (decide (0 <= i)); [|lia].
  apply lookup_replicate_2. lia.
Qed.

Lemma aget_aset_eq {A} (a : list A) i (v : A) :
  0 <= i < alen a -> aget (aset a i v) i = Some v.
Proof.
  intros Hi. unfold aget, aset, alen in *.
  destruct (decide (0 <= i)); [|lia].
  apply list_lookup_insert_eq. lia.
Qed.

Lemma aget_aset_ne {A} (a : list A) i j (v : A) :
  0 <= i -> 0 <= j -> i <> j -> aget (aset a i v) j = aget a j.
Proof.
  intros Hi Hj Hne. unfold aget, aset.
  destruct (decide (0 <= j)); [|lia].
  apply list_lookup_insert_ne. lia.
Qed.

Section Forest.
Variables ZR ZC : Z.
Hypothesis HR : 0 < ZR.
Hypothesis HC : 0 < ZC.
Hypothesis Hn : ZR * ZC < 2 ^ 31.

Local Abbreviation n := (ZR * ZC).
Local Abbreviation fresh := (fresh_forest ZR ZC).
Local Abbreviation linked := (linked_forest ZR ZC).

Lemma newUF_fresh : newUF ZR ZC = Some fresh.
Proof.
  unfold newUF, imul. rewrite wrap32_small by nia.
  destruct (decide (0 <= ZR * ZC)); [done|nia].
Qed.

Lemma flat_index_range p :
  p ∈ cells ZR ZC -> 0 <= flat_index ZC p < n.
Proof.
  intros [H1 H2]%elem_of_cells. unfold flat_index. nia.
Qed.

Lemma flat_index_inj p q :
  p ∈ cells ZR ZC -> q ∈ cells ZR ZC ->
  flat_index ZC p = flat_index ZC q -> p = q.
Proof.
  intros [Hp1 Hp2]%elem_of_cells [Hq1 Hq2]%elem_of_cells.
  unfold flat_index. destruct p as [p1 p2], q as [q1 q2]. simpl in *.
  intros Heq. assert (p1 = q1) by nia. subst. f_equal. lia.
Qed.

Lemma cellIndex_flat uf p :
  ufCols uf = ZC -> p ∈ cells ZR ZC ->
  cellIndex uf p.1 p.2 = flat_index ZC p.
Proof.
  intros Hcols Hp. pose proof (flat_index_range p Hp) as Hrange.
  apply elem_of_cells in Hp as [H1 H2].
  unfold cellIndex, iadd, imul, flat_index in *. rewrite Hcols.
  rewrite (wrap32_small (p.1 * ZC)) by nia.
  apply wrap32_small. nia.
Qed.

Lemma length_seqZ_n : length (seqZ 0 n) = Z.to_nat n.
Proof. apply length_seqZ. Qed.

Lemma find_fresh p :
  p ∈ cells ZR ZC -> find fresh p.1 p.2 = Some (flat_index ZC p).
Proof.
  intros Hp. unfold find. rewrite cellIndex_flat by done.
  apply find_root_self. simpl. apply aget_seqZ. by apply flat_index_range.
Qed.

(** Uniting a cell with itself changes nothing. *)
Lemma union_fresh_same p :
  p ∈ cells ZR ZC -> union fresh p.1 p.2 p.1 p.2 = Some fresh.
Proof.
  intros Hp. unfold union. rewrite find_fresh by done.
  cbn [mbind option_bind]. by destruct (decide _).
Qed.

(** The first union of two different cells hangs the second under the
    first: both trees have size 1. *)
Lemma union_fresh_link a b :
  a ∈ cells ZR ZC -> b ∈ cells ZR ZC -> a <> b ->
  union fresh a.1 a.2 b.1 b.2
  = Some (linked (flat_index ZC a) (flat_index ZC b)).
Proof.
  intros Ha Hb Hne. unfold union. rewrite !find_fresh by done.
  cbn [mbind option_bind].
  destruct (decide _) as [Heq|_].
  { destruct Hne. by apply flat_index_inj. }
  simpl. rewrite !aget_replicate by (by apply flat_index_range).
  reflexivity.
Qed.

Section Linked.
Variables a b : Z * Z.
Hypothesis Ha : a ∈ cells ZR ZC.
Hypothesis Hb : b ∈ cells ZR ZC.
Hypothesis Hab : a <> b.

Local Abbreviation ia := (flat_index ZC a).
Local Abbreviation ib := (flat_index ZC b).

Lemma index_ne : ia <> ib.
Proof. intros Heq. destruct Hab. by apply flat_index_inj. Qed.

Lemma find_linked_first : find (linked ia ib) a.1 a.2 = Some ia.
Proof.
  pose proof (flat_index_range a Ha). pose proof (flat_index_range b Hb).
  pose proof index_ne.
  unfold find. rewrite cellIndex_flat by done.
  apply find_root_self. simpl.
  rewrite aget_aset_ne by lia.
  by apply aget_seqZ.
Qed.

Lemma find_linked_second : find (linked ia ib) b.1 b.2 = Some ia.
Proof.
  pose proof (flat_index_range a Ha) as Hra.
  pose proof (flat_index_range b Hb) as Hrb.
  pose proof index_ne as Hne.
  unfold find. rewrite cellIndex_flat by done. simpl.
  unfold aset at 1. rewrite length_insert, length_seqZ.
  destruct (Z.to_nat n) as [|k] eqn:Hk; [lia|].
  apply find_root_link.
  - apply aget_aset_eq. unfold alen. rewrite length_seqZ. lia.
  - done.
  - rewrite aget_aset_ne by lia. by apply aget_seqZ.
Qed.

Lemma find_linked p :
  p = a \/ p = b -> find (linked ia ib) p.1 p.2 = Some ia.
Proof.
  intros [-> | ->]; [apply find_linked_first|apply find_linked_second].
Qed.

(** Once the two cells are linked, every further union among them
    changes nothing. *)
Lemma union_linked p q :
  p = a \/ p = b -> q = a \/ q = b ->
  union (linked ia ib) p.1 p.2 q.1 q.2 = Some (linked ia ib).
Proof.
  intros Hp Hq. unfold union. rewrite !find_linked by done.
  cbn [mbind option_bind]. by destruct (decide _).
Qed.

(** The calls made for the first cell, when the second is among its
    live neighbours, end with the two cells linked. *)
Lemma unite_first (qs : list (Z * Z)) :
  (forall q, q ∈ qs -> q = a \/ q = b) -> b ∈ qs ->
  for_each (fun uf q => union uf a.1 a.2 q.1 q.2) fresh qs
  = Some (linked ia ib).
Proof.
  induction qs as [|q qs IH]; intros Hall Hin.
  { by apply elem_of_nil in Hin. }
  cbn [for_each].
  destruct (Hall q (list_elem_of_here _ _)) as [-> | ->].
  - rewrite union_fresh_same by done.
    apply IH.
    + intros q' Hq'. apply Hall. by apply list_elem_of_further.
    + apply elem_of_cons in Hin as [Heq|Hin]; [|done]. by destruct Hab.
  - rewrite union_fresh_link by done.
    apply for_each_fixed. intros q' Hq'.
    apply union_linked; [by left|].
    apply Hall. by apply list_elem_of_further.
Qed.

End Linked.

End Forest.

End CommunityFacts.

(** ** Adjacency on the torus *)

Lemma NoDup_cells R C : NoDup (cells R C).
Proof.
  unfold cells. apply NoDup_bind.
  - intros r1 r2 p _ _ (c1 & -> & _)%list_elem_of_fmap
      (c2 & [= -> _] & _)%list_elem_of_fmap. done.
  - intros r _. apply NoDup_fmap_2; [|apply NoDup_seqZ].
    intros c1 c2 [= ->]. done.
  - apply NoDup_seqZ.
Qed.

Lemma NoDup_live_cells R C g : NoDup (live_cells R C g).
Proof. unfold live_cells. apply NoDup_filter, NoDup_cells. Qed.

Lemma torus_shift_back R C p d :
  p ∈ cells R C ->
  torus_shift R C (torus_shift R C p d) (- d.1, - d.2) = p.
Proof.
  intros [H1 H2]%elem_of_cells. unfold torus_shift. cbn [fst snd].
  destruct p as [r c]. cbn [fst snd] in *. f_equal.
  - rewrite Zplus_mod_idemp_l. replace (r + d.1 + - d.1) with r by lia.
    by apply Z.mod_small.
  - rewrite Zplus_mod_idemp_l. replace (c + d.2 + - d.2) with c by lia.
    by apply Z.mod_small.
Qed.

Lemma offsets8_opposite d : d ∈ offsets8 -> (- d.1, - d.2) ∈ offsets8.
Proof.
  unfold offsets8. intros H. rewrite !elem_of_cons, elem_of_nil in H.
  repeat (destruct H as [-> | H]); [..|done]; cbn;
    repeat first [apply list_elem_of_here | apply list_elem_of_further].
Qed.

(** Being a neighbour on the torus is symmetric. *)
Lemma torus_neighbours_sym R C p q :
  p ∈ cells R C ->
  q ∈ torus_neighbours R C p.1 p.2 -> p ∈ torus_neighbours R C q.1 q.2.
Proof.
  intros Hp. rewrite !torus_neighbours_shift, !list_elem_of_fmap.
  intros (d & -> & Hd). exists (- d.1, - d.2).
  split; [by rewrite torus_shift_back|by apply offsets8_opposite].
Qed.

(** ** The component counter *)

Section Components.
Import Java JavaFacts CommunityFacts.

Variables (R C : nat) (g : list (list bool)).
Hypothesis Hg : rect R C g.
Hypothesis HR : 0 < Z.of_nat R < 2 ^ 30.
Hypothesis HC : 0 < Z.of_nat C < 2 ^ 30.
Hypothesis Hn : Z.of_nat R * Z.of_nat C < 2 ^ 31.

Local Abbreviation ZR := (Z.of_nat R).
Local Abbreviation ZC := (Z.of_nat C).

(** [numOfCommunities] as two flat loops over the live cells. *)
Lemma numOfCommunities_flat :
  numOfCommunities g
  = (uf ← for_each (fun uf e => union uf e.1.1 e.1.2 e.2.1 e.2.2)
            (fresh_forest ZR ZC) (union_calls ZR ZC g);
     lst ← for_each (fun lst p => addRoot uf lst p.1 p.2) []
             (live_cells ZR ZC g);
     Some (alen lst)).
Proof.
  unfold numOfCommunities.
  destruct (aget_row R C g 0 Hg) as (line0 & -> & Hlen0); [lia|].
  cbn [mbind option_bind]. rewrite Hlen0, (alen_grid R C g Hg).
  rewrite newUF_fresh by lia. cbn [mbind option_bind].
  rewrite (uniteLiveCells_flat R C g Hg HR HC).
  destruct (for_each _ _ (union_calls ZR ZC g)) as [uf|]; [|done].
  cbn [mbind option_bind]. by rewrite (collectRoots_flat R C g Hg).
Qed.

Lemma live_in_cells p : p ∈ live_cells ZR ZC g -> p ∈ cells ZR ZC.
Proof. by intros [_ ?]%elem_of_live_cells. Qed.

(** When no live cell has a live neighbour other than itself, the first
    loop nest leaves the structure as constructed. *)
Lemma isolated_cells_stay_apart :
  (forall p q, p ∈ live_cells ZR ZC g ->
               q ∈ live_neighbours ZR ZC g p -> q = p) ->
  for_each (fun uf e => union uf e.1.1 e.1.2 e.2.1 e.2.2)
    (fresh_forest ZR ZC) (union_calls ZR ZC g)
  = Some (fresh_forest ZR ZC).
Proof.
  intros Hiso. apply for_each_fixed. intros [p q] He.
  apply list_elem_of_bind in He as (p' & He & Hp).
  apply list_elem_of_fmap in He as (q' & [= -> ->] & Hq).
  rewrite (Hiso _ _ Hp Hq). cbn [fst snd].
  apply union_fresh_same; [lia..|]. by apply live_in_cells.
Qed.

Lemma addRoot_new uf lst p root :
  find uf p.1 p.2 = Some root -> root ∉ lst ->
  addRoot uf lst p.1 p.2 = Some (lst ++ [root]).
Proof.
  intros Hfind Hnew. unfold addRoot, contains. rewrite Hfind.
  cbn [mbind option_bind]. by rewrite bool_decide_eq_false_2.
Qed.

Lemma addRoot_known uf lst p root :
  find uf p.1 p.2 = Some root -> root ∈ lst ->
  addRoot uf lst p.1 p.2 = Some lst.
Proof.
  intros Hfind Hold. unfold addRoot, contains. rewrite Hfind.
  cbn [mbind option_bind]. by rewrite bool_decide_eq_true_2.
Qed.

Lemma no_live_cell :
  live_cells ZR ZC g = [] -> numOfCommunities g = Some 0.
Proof.
  intros Hlive. rewrite numOfCommunities_flat.
  unfold union_calls. rewrite Hlive. reflexivity.
Qed.

Lemma one_live_cell a :
  live_cells ZR ZC g = [a] -> numOfCommunities g = Some 1.
Proof.
  intros Hlive. rewrite numOfCommunities_flat.
  assert (a ∈ cells ZR ZC) as Ha.
  { apply live_in_cells. rewrite Hlive. apply list_elem_of_here. }
  rewrite isolated_cells_stay_apart.
  - rewrite Hlive. cbn [mbind option_bind for_each].
    rewrite (addRoot_new _ _ _ (flat_index ZC a)).
    + reflexivity.
    + apply find_fresh; [lia..|done].
    + apply not_elem_of_nil.
  - intros p q Hp Hq.
    apply elem_of_live_neighbours in Hq as [_ Hq]; [|lia..].
    rewrite Hlive in Hp, Hq.
    apply list_elem_of_singleton in Hp, Hq. congruence.
Qed.

Lemma two_live_cells_apart a b :
  live_cells ZR ZC g = [a; b] ->
  b ∉ torus_neighbours ZR ZC a.1 a.2 ->
  numOfCommunities g = Some 2.
Proof.
  intros Hlive Hapart. rewrite numOfCommunities_flat.
  pose proof (NoDup_live_cells ZR ZC g) as Hnd. rewrite Hlive in Hnd.
  assert (a <> b) as Hab.
  { apply NoDup_cons in Hnd as [Hnot _]. intros ->.
    apply Hnot, list_elem_of_here. }
  assert (a ∈ cells ZR ZC) as Ha.
  { apply live_in_cells. rewrite Hlive. apply list_elem_of_here. }
  assert (b ∈ cells ZR ZC) as Hb.
  { apply live_in_cells. rewrite Hlive.
    apply list_elem_of_further, list_elem_of_here. }
  rewrite isolated_cells_stay_apart.
  - rewrite Hlive. cbn [mbind option_bind for_each].
    rewrite (addRoot_new _ _ _ (flat_index ZC a));
      [|apply find_fresh; [lia..|done]|apply not_elem_of_nil].
    rewrite (addRoot_new _ _ _ (flat_index ZC b));
      [reflexivity|apply find_fresh; [lia..|done]|].
    cbn [app]. intros Hin%list_elem_of_singleton.
    apply Hab. symmetry. apply (flat_index_inj ZR ZC); [lia..|done|done|done].
  - intros p q Hp Hq.
    apply elem_of_live_neighbours in Hq as [Hnb Hq]; [|lia..].
    rewrite Hlive in Hp, Hq.
    rewrite !elem_of_cons, elem_of_nil in Hp, Hq.
    destruct Hp as [-> | [-> | []]], Hq as [-> | [-> | []]]; try done.
    destruct Hapart. by apply torus_neighbours_sym.
Qed.

Lemma two_live_cells_adjacent a b :
  live_cells ZR ZC g = [a; b] ->
  b ∈ torus_neighbours ZR ZC a.1 a.2 ->
  numOfCommunities g = Some 1.
Proof.
  intros Hlive Hadj. rewrite numOfCommunities_flat.
  pose proof (NoDup_live_cells ZR ZC g) as Hnd. rewrite Hlive in Hnd.
  assert (a <> b) as Hab.
  { apply NoDup_cons in Hnd as [Hnot _]. intros ->.
    apply Hnot, list_elem_of_here. }
  assert (a ∈ cells ZR ZC) as Ha.
  { apply live_in_cells. rewrite Hlive. apply list_elem_of_here. }
  assert (b ∈ cells ZR ZC) as Hb.
  { apply live_in_cells. rewrite Hlive.
    apply list_elem_of_further, list_elem_of_here. }
  assert (forall p q, q ∈ live_neighbours ZR ZC g p -> q = a \/ q = b)
    as Hnbs.
  { intros p q [_ Hq]%elem_of_live_neighbours; [|lia..].
    rewrite Hlive, !elem_of_cons, elem_of_nil in Hq. tauto. }
  unfold union_calls. rewrite Hlive.
  cbn [mbind list_bind]. rewrite app_nil_r, for_each_app, !for_each_fmap.
  cbn [fst snd].
  assert (0 < ZR) as HR' by lia. assert (0 < ZC) as HC' by lia.
  rewrite (unite_first ZR ZC HR' HC' Hn a b Ha Hb Hab); cycle 1.
  { apply Hnbs. }
  { apply elem_of_live_neighbours; [lia..|]. split; [done|].
    rewrite Hlive. apply list_elem_of_further, list_elem_of_here. }
  cbn [mbind option_bind]. rewrite for_each_fmap. cbn [fst snd].
  rewrite for_each_fixed; cycle 1.
  { intros q Hq.
    apply (union_linked ZR ZC HR' HC' Hn a b Ha Hb Hab b q); [by right|].
    by eapply Hnbs. }
  cbn [mbind option_bind for_each].
  rewrite (addRoot_new _ _ _ (flat_index ZC a));
    [|by apply (find_linked_first ZR ZC HR' HC' Hn a b)
     |apply not_elem_of_nil].
  rewrite (addRoot_known _ _ _ (flat_index ZC a));
    [reflexivity|by apply (find_linked_second ZR ZC HR' HC' Hn a b)|].
  apply list_elem_of_here.
Qed.

End Components.

(** * The claims *)

Lemma life_rule_standard (b : bool) (n : Z) :
  standard_rule true false b n (life_rule b n).
Proof.
  unfold standard_rule, life_rule.
  destruct b; repeat split; intros; try discriminate;
    repeat match goal with
           | |- context [?a <? ?b] => destruct (Z.ltb_spec a b)
           | |- context [?a <=? ?b] => destruct (Z.leb_spec a b)
           | |- context [?a =? ?b] => destruct (Z.eqb_spec a b)
           end; try reflexivity; lia.
Qed.

Lemma encode_standard (b : bool) (n : Z) :
  standard_rule JS.ALIVE JS.DEAD (JS.encode b) n
    (JS.encode (life_rule b n)).
Proof.
  pose proof (life_rule_standard b n) as (H1 & H2 & H3 & H4 & H5).
  unfold standard_rule, JS.encode, JS.ALIVE, JS.DEAD.
  destruct b; repeat split; intros; try discriminate;
    first [rewrite H1 by done | rewrite H2 by done | rewrite H3 by done
          | rewrite H4 by done | rewrite H5 by done]; done.
Qed.

Lemma torus_step_cell_nat {A} (h : bool -> A) alive (R C : nat) (r c : nat) :
  (r < R)%nat -> (c < C)%nat ->
  (line ← map (map h) (torus_step alive (Z.of_nat R) (Z.of_nat C)) !! r;
   line !! c)
  = Some (h (life_rule (alive (Z.of_nat r) (Z.of_nat c))
               (count_alive alive
                  (torus_neighbours (Z.of_nat R) (Z.of_nat C)
                     (Z.of_nat r) (Z.of_nat c))))).
Proof.
  intros Hr Hc. unfold torus_step.
  rewrite !list_lookup_fmap, lookup_seqZ_lt by lia. simpl.
  rewrite !list_lookup_fmap, lookup_seqZ_lt by lia. done.
Qed.

(** C1.  On a grid of the component's shape, [nextGen] returns a grid of the
    same shape whose cell (r, c) follows the standard rule applied to the
    old cell and to [neighbourCount] taken on the old grid; on a rectangular
    Java grid [computeNewGrid] does the same with [numOfAliveNeighbors]:
    a live cell with fewer than 2 neighbours dies, with 2 or 3 it lives,
    with more than 3 it dies; a dead cell with exactly 3 becomes alive and
    otherwise stays dead. *)
Theorem stepper_follows_standard_rule
    (R C : nat) (js : list (list Z)) (jv : list (list bool)) :
  rect R C js -> binary js -> rect R C jv ->
  0 < Z.of_nat R < 2 ^ 30 -> 0 < Z.of_nat C < 2 ^ 30 ->
  (exists js',
      JS.nextGen R C js = Some js' /\ rect R C js' /\
      forall r c : nat, (r < R)%nat -> (c < C)%nat ->
        exists cell n next,
          (line ← js !! r; line !! c) = Some cell /\
          JS.neighbourCount R C (Z.of_nat r) (Z.of_nat c) js = Some (JS.Int n) /\
          (line ← js' !! r; line !! c) = Some next /\
          standard_rule JS.ALIVE JS.DEAD cell n next) /\
  (exists jv',
      Java.computeNewGrid jv = Some jv' /\ rect R C jv' /\
      forall row col : Z, 0 <= row < Z.of_nat R -> 0 <= col < Z.of_nat C ->
        exists cell n next,
          Java.aget2 jv row col = Some cell /\
          Java.numOfAliveNeighbors jv row col = Some n /\
          Java.aget2 jv' row col = Some next /\
          standard_rule Java.ALIVE Java.DEAD cell n next).
Proof.
  intros Hjs Hbin Hjv HR HC. split.
  - eexists. split; [by apply JSFacts.nextGen_spec|]. split.
    { destruct (JavaFacts.torus_step_rect (JS.is_alive js) R C) as [Hl Hall].
      split; [by rewrite length_map|].
      apply Forall_map. eapply Forall_impl; [exact Hall|].
      intros line Hline. simpl. by rewrite length_map. }
    intros r c Hr Hc.
    destruct (rect_cell R C js r c Hjs Hr Hc) as (line & cell & Hline & Hcell).
    assert (JS.read2 js (Z.of_nat r) (Z.of_nat c) = Some cell) as Hread
      by (by rewrite JSFacts.read2_nat, Hline).
    exists cell, (count_alive (JS.is_alive js)
                    (torus_neighbours (Z.of_nat R) (Z.of_nat C)
                       (Z.of_nat r) (Z.of_nat c))).
    eexists. split; [by rewrite Hline|]. split.
    { rewrite (JSFacts.neighbourCount_sum R C) by (first [done | lia]).
      by rewrite JSFacts.binary_sum. }
    split; [by apply torus_step_cell_nat|].
    replace cell
      with (JS.encode (JS.is_alive js (Z.of_nat r) (Z.of_nat c))).
    + apply encode_standard.
    + unfold JS.is_alive. rewrite Hread.
      destruct (JSFacts.binary_read2 js _ _ cell Hbin Hread) as [-> | ->]; done.
  - eexists. split; [apply (JavaFacts.computeNewGrid_spec R C); first [done|lia]|].
    split; [apply JavaFacts.torus_step_rect|].
    intros row col Hrow Hcol.
    destruct (JavaFacts.aget2_in_range R C jv row col Hjv Hrow Hcol)
      as (cell & Hcell & Halive).
    exists cell. eexists. eexists. split; [done|]. split.
    { by apply (JavaFacts.numOfAliveNeighbors_spec R C). }
    split; [by apply JavaFacts.torus_step_cell|].
    rewrite Halive. apply life_rule_standard.
Qed.

Lemma bar3_js_rect : rect 3 3 bar3_js.
Proof. split; [reflexivity|]. repeat constructor. Defined.

Lemma bar3_js_binary : binary bar3_js.
Proof.
  unfold binary, bar3_js.
  repeat match goal with |- Forall _ _ => constructor end; lia.
Defined.

Lemma bar3_java_rect : rect 3 3 bar3_java.
Proof. split; [reflexivity|]. repeat constructor. Defined.

Lemma stepper_follows_standard_rule_witness :
  (exists js',
      JS.nextGen 3 3 bar3_js = Some js' /\ rect 3 3 js' /\
      forall r c : nat, (r < 3)%nat -> (c < 3)%nat ->
        exists cell n next,
          (line ← bar3_js !! r; line !! c) = Some cell /\
          JS.neighbourCount 3 3 (Z.of_nat r) (Z.of_nat c) bar3_js
          = Some (JS.Int n) /\
          (line ← js' !! r; line !! c) = Some next /\
          standard_rule JS.ALIVE JS.DEAD cell n next) /\
  (exists jv',
      Java.computeNewGrid bar3_java = Some jv' /\ rect 3 3 jv' /\
      forall row col : Z, 0 <= row < 3 -> 0 <= col < 3 ->
        exists cell n next,
          Java.aget2 bar3_java row col = Some cell /\
          Java.numOfAliveNeighbors bar3_java row col = Some n /\
          Java.aget2 jv' row col = Some next /\
          standard_rule Java.ALIVE Java.DEAD cell n next).
Proof.
  apply (stepper_follows_standard_rule 3 3 bar3_js bar3_java).
  - exact bar3_js_rect.
  - exact bar3_js_binary.
  - exact bar3_java_rect.
  - simpl; lia.
  - simpl; lia.
Defined.

(** C2.  The constructor sets [totalAliveCells] to the number of live cells,
    but [nextGeneration] replaces the grid and leaves the field alone: after
    one step of the default game the accessor still answers 5 while the
    grid holds 4 live cells. *)
Theorem alive_count_stale_after_step :
  Java.getTotalAliveCells Java.default_game
  = alive_total (Java.grid Java.default_game) /\
  exists s,
    Java.nextGeneration Java.default_game = Some s /\
    Java.getTotalAliveCells s = 5 /\
    alive_total (Java.grid s) = 4.
Proof.
  split; [reflexivity|].
  eexists. split; [vm_compute; reflexivity|]. split; reflexivity.
Qed.

Lemma decode_grid_rect R C (g : list (list Z)) :
  rect R C g -> rect R C (map (map JS.decode) g).
Proof.
  intros [Hl Hall]. split; [by rewrite length_map|].
  apply Forall_map. eapply Forall_impl; [exact Hall|].
  intros line Hline. simpl. by rewrite length_map.
Qed.

(** Decoding the numbers of a grid commutes with reading a cell. *)
Lemma decode_is_alive (g : list (list Z)) (r c : Z) :
  Java.is_alive (map (map JS.decode) g) r c = JS.is_alive g r c.
Proof.
  unfold Java.is_alive, JS.is_alive, Java.aget2, Java.aget,
    JS.read2, JS.at_index.
  destruct (decide (0 <= r)); [|done].
  rewrite list_lookup_fmap.
  destruct (g !! Z.to_nat r) as [line|]; [|done]. simpl.
  destruct (decide (0 <= c)); [|done].
  rewrite list_lookup_fmap.
  destruct (line !! Z.to_nat c) as [v|]; [|done]. simpl.
  unfold JS.decode, Java.ALIVE.
  destruct (Z.eqb_spec v JS.ALIVE) as [->|Hne].
  - by rewrite !bool_decide_eq_true_2.
  - rewrite !bool_decide_eq_false_2; [done| congruence | congruence].
Qed.

Lemma count_alive_ext (a b : Z -> Z -> bool) ps :
  (forall r c, a r c = b r c) -> count_alive a ps = count_alive b ps.
Proof.
  intros Hab. induction ps as [|p ps IH]; [done|]. simpl. by rewrite IH, Hab.
Qed.

Lemma torus_step_ext (a b : Z -> Z -> bool) R C :
  (forall r c, a r c = b r c) -> torus_step a R C = torus_step b R C.
Proof.
  intros Hab. unfold torus_step.
  apply map_ext. intros r. apply map_ext. intros c.
  by rewrite Hab, (count_alive_ext a b).
Qed.

Lemma decode_encode_grid (g : list (list bool)) :
  map (map JS.decode) (map (map JS.encode) g) = g.
Proof.
  rewrite map_map. rewrite <- (map_id g) at 2. apply map_ext. intros line.
  rewrite map_map. rewrite <- (map_id line) at 2. apply map_ext.
  apply JSFacts.decode_encode.
Qed.

(** C3.  On every grid of zeros and ones with at least one row, the
    two-branch stepper [nextGen] and the four-branch stepper
    [computeNewGrid] both return, and return the same grid: reading 1 as
    true and 0 as false turns the result of the first into the result of the
    second on the grid read the same way. *)
Theorem two_and_four_branch_steppers_agree (R C : nat) (g : list (list Z)) :
  rect R C g -> binary g ->
  0 < Z.of_nat R < 2 ^ 30 -> 0 <= Z.of_nat C < 2 ^ 30 ->
  exists g',
    JS.nextGen R C g = Some g' /\
    Java.computeNewGrid (map (map JS.decode) g)
    = Some (map (map JS.decode) g').
Proof.
  intros Hg Hb HR HC. eexists. split; [by apply JSFacts.nextGen_spec|].
  rewrite (JavaFacts.computeNewGrid_spec R C)
    by (first [by apply decode_grid_rect | done]).
  f_equal. rewrite decode_encode_grid.
  apply torus_step_ext, decode_is_alive.
Qed.

Lemma two_and_four_branch_steppers_agree_witness :
  exists g',
    JS.nextGen 3 3 bar3_js = Some g' /\
    Java.computeNewGrid (map (map JS.decode) bar3_js)
    = Some (map (map JS.decode) g').
Proof.
  apply (two_and_four_branch_steppers_agree 3 3 bar3_js).
  - exact bar3_js_rect.
  - exact bar3_js_binary.
  - simpl; lia.
  - simpl; lia.
Defined.

(** The two cell rules agree on every state and every count. *)
Lemma nextCell_newCell (cell : bool) (n : Z) :
  JS.nextCell (JS.encode cell) (JS.Int n)
  = JS.encode (Java.newCell cell n).
Proof.
  rewrite JSFacts.nextCell_life_rule by (destruct cell; auto).
  by rewrite JSFacts.decode_encode, JavaFacts.newCell_life_rule.
Qed.

Lemma mod_minus_one n : 0 < n -> (0 + -1) mod n = n - 1.
Proof.
  intros Hn. replace (0 + -1) with (n - 1 + (-1) * n) by lia.
  rewrite Z.mod_add by lia. apply Z.mod_small. lia.
Qed.

Lemma corner_neighbours R C :
  0 < R -> 0 < C ->
  torus_neighbours R C 0 0
  = [ (R - 1, C - 1); (R - 1, 0); (R - 1, 1 mod C);
      (0, C - 1);                 (0, 1 mod C);
      (1 mod R, C - 1); (1 mod R, 0); (1 mod R, 1 mod C) ].
Proof.
  intros HR HC. unfold torus_neighbours, offsets8.
  cbn [map fst snd].
  rewrite !mod_minus_one by done.
  replace (0 + 0) with 0 by lia. replace (0 + 1) with 1 by lia.
  by rewrite !Z.mod_0_l by lia.
Qed.

(** C4.  On a grid of positive dimensions R and C, for every cell (row, col),
    [neighbourCount] and [numOfAliveNeighbors] return the number of live
    cells among the eight positions ((row+dr) mod R, (col+dc) mod C),
    (dr, dc) <> (0, 0); the number lies between 0 and 8; and the positions
    counted for the corner (0, 0) include (R-1, C-1), (R-1, 0) and
    (0, C-1). *)
Theorem neighbour_counter_counts_torus_neighbours
    (R C : nat) (js : list (list Z)) (jv : list (list bool)) (row col : Z) :
  rect R C js -> binary js -> rect R C jv ->
  0 < Z.of_nat R < 2 ^ 30 -> 0 < Z.of_nat C < 2 ^ 30 ->
  0 <= row < Z.of_nat R -> 0 <= col < Z.of_nat C ->
  let ps := torus_neighbours (Z.of_nat R) (Z.of_nat C) row col in
  let corner := torus_neighbours (Z.of_nat R) (Z.of_nat C) 0 0 in
  JS.neighbourCount R C row col js
  = Some (JS.Int (count_alive (JS.is_alive js) ps)) /\
  Java.numOfAliveNeighbors jv row col
  = Some (count_alive (Java.is_alive jv) ps) /\
  length ps = 8%nat /\
  0 <= count_alive (JS.is_alive js) ps <= 8 /\
  0 <= count_alive (Java.is_alive jv) ps <= 8 /\
  (Z.of_nat R - 1, Z.of_nat C - 1) ∈ corner /\
  (Z.of_nat R - 1, 0) ∈ corner /\
  (0, Z.of_nat C - 1) ∈ corner.
Proof.
  intros Hjs Hbin Hjv HR HC Hrow Hcol ps corner.
  assert (length ps = 8%nat) as Hlen by reflexivity.
  split.
  { rewrite (JSFacts.neighbourCount_sum R C) by done.
    by rewrite JSFacts.binary_sum. }
  split; [by apply (JavaFacts.numOfAliveNeighbors_spec R C)|].
  split; [done|].
  pose proof (count_alive_range (JS.is_alive js) ps) as H1.
  pose proof (count_alive_range (Java.is_alive jv) ps) as H2.
  rewrite Hlen in H1, H2.
  split; [lia|]. split; [lia|].
  subst corner. rewrite corner_neighbours by lia.
  repeat split.
  - apply list_elem_of_here.
  - apply list_elem_of_further, list_elem_of_here.
  - do 3 apply list_elem_of_further. apply list_elem_of_here.
Qed.

Lemma neighbour_counter_counts_torus_neighbours_witness :
  let ps := torus_neighbours 3 3 0 0 in
  let corner := torus_neighbours 3 3 0 0 in
  JS.neighbourCount 3 3 0 0 bar3_js
  = Some (JS.Int (count_alive (JS.is_alive bar3_js) ps)) /\
  Java.numOfAliveNeighbors bar3_java 0 0
  = Some (count_alive (Java.is_alive bar3_java) ps) /\
  length ps = 8%nat /\
  0 <= count_alive (JS.is_alive bar3_js) ps <= 8 /\
  0 <= count_alive (Java.is_alive bar3_java) ps <= 8 /\
  (3 - 1, 3 - 1) ∈ corner /\
  (3 - 1, 0) ∈ corner /\
  (0, 3 - 1) ∈ corner.
Proof.
  apply (neighbour_counter_counts_torus_neighbours 3 3 bar3_js bar3_java 0 0).
  - exact bar3_js_rect.
  - exact bar3_js_binary.
  - exact bar3_java_rect.
  - simpl; lia.
  - simpl; lia.
  - simpl; lia.
  - simpl; lia.
Defined.

(** C5.  The grid of the default constructor is the 5-by-5 grid whose live
    cells are exactly (1,1), (1,3), (2,2), (3,2) and (3,3), and stepping it
    four times with [nextGeneration(4)] gives the 5-by-5 grid with every
    cell dead. *)
Theorem default_seed_dies_after_four_generations :
  Java.grid Java.default_game
  = [ [false; false; false; false; false];
      [false; true;  false; true;  false];
      [false; false; true;  false; false];
      [false; false; true;  true;  false];
      [false; false; false; false; false] ] /\
  Java.grid <$> Java.nextGeneration_n 4 Java.default_game
  = Some (replicate 5 (replicate 5 Java.DEAD)).
Proof. split; [reflexivity|]. vm_compute. reflexivity. Qed.

(** It is not dead any earlier. *)
Lemma default_seed_alive_after_three_generations :
  alive_total <$> (Java.grid <$> Java.nextGeneration_n 3 Java.default_game)
  = Some 2.
Proof. vm_compute. reflexivity. Qed.

Lemma repeat_step_add (n m : nat) (s : Java.GameOfLife) :
  Java.repeat_step (n + m) s
  = (s' ← Java.repeat_step n s; Java.repeat_step m s').
Proof.
  revert s. induction n as [|n IH]; intros s; [done|].
  cbn [Nat.add Java.repeat_step].
  destruct (Java.nextGeneration s) as [s1|]; [|done]. simpl. apply IH.
Qed.

(** C6.  [nextGeneration(0)] leaves the game as it is, and for all natural
    numbers n and m, [nextGeneration(n + m)] is [nextGeneration(n)] followed
    by [nextGeneration(m)]. *)
Theorem generations_compose (s : Java.GameOfLife) (n m : nat) :
  Java.nextGeneration_n 0 s = Some s /\
  Java.nextGeneration_n (Z.of_nat (n + m)) s
  = (s' ← Java.nextGeneration_n (Z.of_nat n) s;
     Java.nextGeneration_n (Z.of_nat m) s').
Proof.
  split; [reflexivity|].
  unfold Java.nextGeneration_n. rewrite !Nat2Z.id. apply repeat_step_add.
Qed.

(** On a rectangular grid within the int range, stepping any number of
    generations returns a game (no exception), with a grid of the same
    dimensions. *)
Lemma nextGeneration_n_returns (R C : nat) (n : Z) (s : Java.GameOfLife) :
  rect R C (Java.grid s) ->
  0 < Z.of_nat R < 2 ^ 30 -> 0 <= Z.of_nat C < 2 ^ 30 ->
  exists s', Java.nextGeneration_n n s = Some s' /\ rect R C (Java.grid s').
Proof.
  intros Hg HR HC. unfold Java.nextGeneration_n.
  generalize (Z.to_nat n) as k. intros k. revert s Hg.
  induction k as [|k IH]; intros s Hg; [by exists s|].
  cbn [Java.repeat_step]. unfold Java.nextGeneration.
  rewrite (JavaFacts.computeNewGrid_spec R C) by done. simpl.
  apply IH. simpl. apply JavaFacts.torus_step_rect.
Qed.

(** C7.  On a rectangular grid: with no live cell the component counter
    returns 0; with exactly one live cell it returns 1; with exactly two
    live cells it returns 1 when one is among the eight toroidal neighbours
    of the other and 2 when it is not. *)
Theorem component_counter_up_to_two_cells
    (R C : nat) (g : list (list bool)) :
  rect R C g ->
  0 < Z.of_nat R < 2 ^ 30 -> 0 < Z.of_nat C < 2 ^ 30 ->
  Z.of_nat R * Z.of_nat C < 2 ^ 31 ->
  let live := live_cells (Z.of_nat R) (Z.of_nat C) g in
  let neighbours p := torus_neighbours (Z.of_nat R) (Z.of_nat C) p.1 p.2 in
  (live = [] -> Java.numOfCommunities g = Some 0) /\
  (forall a, live = [a] -> Java.numOfCommunities g = Some 1) /\
  (forall a b, live = [a; b] -> b ∈ neighbours a ->
               Java.numOfCommunities g = Some 1) /\
  (forall a b, live = [a; b] -> b ∉ neighbours a ->
               Java.numOfCommunities g = Some 2).
Proof.
  intros Hg HR HC Hn live neighbours. subst live neighbours. cbn beta.
  split; [by apply (no_live_cell R C)|].
  split; [intros a; by apply (one_live_cell R C)|].
  split.
  - intros a b. by apply (two_live_cells_adjacent R C).
  - intros a b. by apply (two_live_cells_apart R C).
Qed.

Lemma rect35 (g : list (list bool)) :
  length g = 3%nat -> Forall (fun line => length line = 5%nat) g -> rect 3 5 g.
Proof. intros Hl Hall. by split. Defined.

Lemma component_counter_up_to_two_cells_witness :
  Java.numOfCommunities none35 = Some 0 /\
  Java.numOfCommunities single35 = Some 1 /\
  Java.numOfCommunities wrapped_pair35 = Some 1 /\
  Java.numOfCommunities far_pair35 = Some 2.
Proof.
  split; [|split; [|split]].
  - apply (component_counter_up_to_two_cells 3 5 none35).
    + apply rect35; [reflexivity|repeat constructor].
    + simpl; lia.
    + simpl; lia.
    + simpl; lia.
    + reflexivity.
  - apply (component_counter_up_to_two_cells 3 5 single35) with (a := (1, 2)).
    + apply rect35; [reflexivity|repeat constructor].
    + simpl; lia.
    + simpl; lia.
    + simpl; lia.
    + reflexivity.
  - apply (component_counter_up_to_two_cells 3 5 wrapped_pair35)
      with (a := (0, 0)) (b := (0, 4)).
    + apply rect35; [reflexivity|repeat constructor].
    + simpl; lia.
    + simpl; lia.
    + simpl; lia.
    + reflexivity.
    + vm_compute. do 3 apply list_elem_of_further. apply list_elem_of_here.
  - apply (component_counter_up_to_two_cells 3 5 far_pair35)
      with (a := (0, 0)) (b := (1, 2)).
    + apply rect35; [reflexivity|repeat constructor].
    + simpl; lia.
    + simpl; lia.
    + simpl; lia.
    + reflexivity.
    + intros Hin. unfold torus_neighbours, offsets8 in Hin.
      cbn [map fst snd] in Hin.
      rewrite !elem_of_cons, elem_of_nil in Hin.
      repeat (destruct Hin as [Hin|Hin]; [vm_compute in Hin; discriminate Hin|]).
      exact Hin.
Defined.

Lemma map_const_replicate {A B} (x : B) (l : list A) :
  map (fun _ => x) l = replicate (length l) x.
Proof. induction l as [|a l IH]; [done|]. simpl. by rewrite IH. Qed.

Lemma count_alive_none ps : count_alive (fun _ _ => false) ps = 0.
Proof. induction ps as [|p ps IH]; [done|]. simpl. by rewrite IH. Qed.

(** The step of the specification keeps the empty torus empty. *)
Lemma torus_step_empty (R C : nat) :
  torus_step (fun _ _ => false) (Z.of_nat R) (Z.of_nat C)
  = replicate R (replicate C false).
Proof.
  unfold torus_step.
  rewrite (map_ext _ (fun _ => replicate C false)).
  - rewrite map_const_replicate, length_seqZ. f_equal. lia.
  - intros r.
    rewrite (map_ext _ (fun _ => false)).
    + rewrite map_const_replicate, length_seqZ. f_equal. lia.
    + intros c. by rewrite count_alive_none.
Qed.

Lemma buildEmptyGrid_rect R C : rect R C (JS.buildEmptyGrid R C).
Proof.
  unfold JS.buildEmptyGrid. split; [apply length_replicate|].
  apply Forall_replicate, length_replicate.
Qed.

Lemma buildEmptyGrid_binary R C : binary (JS.buildEmptyGrid R C).
Proof.
  unfold JS.buildEmptyGrid, binary.
  apply Forall_replicate, Forall_replicate. by left.
Qed.

Lemma buildEmptyGrid_dead R C r c :
  JS.is_alive (JS.buildEmptyGrid R C) r c = false.
Proof.
  unfold JS.is_alive. apply bool_decide_eq_false_2.
  unfold JS.read2, JS.at_index, JS.buildEmptyGrid. intros Hread.
  destruct (decide (0 <= r)); [|done].
  destruct (replicate R (replicate C 0) !! Z.to_nat r) as [line|] eqn:Hline;
    [|done].
  apply lookup_replicate in Hline as [-> _]. simpl in Hread.
  destruct (decide (0 <= c)); [|done].
  apply lookup_replicate in Hread as [Hv _]. discriminate.
Qed.

(** C8.  Stepping the all-dead grid built by [buildEmptyGrid] returns the
    all-dead grid of the same dimensions, for all dimensions R and C. *)
Theorem empty_grid_steps_to_empty_grid (R C : nat) :
  JS.nextGen R C (JS.buildEmptyGrid R C) = Some (JS.buildEmptyGrid R C).
Proof.
  rewrite JSFacts.nextGen_spec
    by (first [apply buildEmptyGrid_rect | apply buildEmptyGrid_binary]).
  f_equal.
  rewrite (torus_step_ext _ (fun _ _ => false)) by (apply buildEmptyGrid_dead).
  rewrite torus_step_empty. unfold JS.buildEmptyGrid.
  by rewrite !fmap_replicate.
Qed.

(** The Java stepper keeps the all-dead grid all dead as well. *)
Lemma computeNewGrid_empty (R C : nat) :
  0 < Z.of_nat R < 2 ^ 30 -> 0 <= Z.of_nat C < 2 ^ 30 ->
  Java.computeNewGrid (Java.new_boolean R C) = Some (Java.new_boolean R C).
Proof.
  intros HR HC. unfold Java.new_boolean.
  rewrite (JavaFacts.computeNewGrid_spec R C); [|split|done..].
  - f_equal. rewrite (torus_step_ext _ (fun _ _ => false));
      [apply torus_step_empty|].
    intros r c. unfold Java.is_alive. apply bool_decide_eq_false_2.
    unfold Java.aget2, Java.aget. intros Hread.
    destruct (decide (0 <= r)); [|done].
    destruct (replicate R (replicate C false) !! Z.to_nat r) as [line|] eqn:Hl;
      [|done].
    apply lookup_replicate in Hl as [-> _]. simpl in Hread.
    destruct (decide (0 <= c)); [|done].
    apply lookup_replicate in Hread as [Hv _]. discriminate.
  - apply length_replicate.
  - apply Forall_replicate, length_replicate.
Qed.

(** C9.  While [running] is true, [toggleCell] and [step] return normally
    and leave the whole state (grid, generation counter, running flag) as it
    was. *)
Theorem actions_rejected_while_running
    (rows cols r c : nat) (st : JS.State) :
  JS.running st = true ->
  JS.toggleCell r c st = Some st /\ JS.step rows cols st = Some st.
Proof.
  intros Hrun. unfold JS.toggleCell, JS.step. by rewrite Hrun.
Qed.

Lemma actions_rejected_while_running_witness :
  JS.running (JS.mkState bar3_js true 7) = true /\
  JS.toggleCell 1 1 (JS.mkState bar3_js true 7)
  = Some (JS.mkState bar3_js true 7) /\
  JS.step 3 3 (JS.mkState bar3_js true 7) = Some (JS.mkState bar3_js true 7).
Proof.
  split; [reflexivity|].
  apply (actions_rejected_while_running 3 3 1 1 (JS.mkState bar3_js true 7)).
  reflexivity.
Defined.

(** C10.  While stopped, [toggleCell(r, c)] on a cell that exists and holds
    ALIVE or DEAD returns a state whose grid has the same dimensions, the
    opposite state at (r, c) and the old state everywhere else; the flags
    are untouched, and toggling the same cell again gives back the state
    before the first toggle. *)
Theorem toggle_flips_exactly_one_cell
    (r c : nat) (st : JS.State) (line : list Z) (v : Z) :
  JS.running st = false ->
  JS.grid st !! r = Some line -> line !! c = Some v ->
  v = JS.ALIVE \/ v = JS.DEAD ->
  exists st' v',
    JS.toggleCell r c st = Some st' /\
    (line' ← JS.grid st' !! r; line' !! c) = Some v' /\
    (v = JS.ALIVE -> v' = JS.DEAD) /\ (v = JS.DEAD -> v' = JS.ALIVE) /\
    (forall r' c' : nat, (r', c') <> (r, c) ->
       (line' ← JS.grid st' !! r'; line' !! c')
       = (line' ← JS.grid st !! r'; line' !! c')) /\
    length (JS.grid st') = length (JS.grid st) /\
    (forall r' : nat,
       length <$> JS.grid st' !! r' = length <$> JS.grid st !! r') /\
    JS.running st' = JS.running st /\
    JS.generation st' = JS.generation st /\
    JS.toggleCell r c st' = Some st.
Proof.
  intros Hrun Hline Hcell Hv. destruct st as [g run gen]. simpl in *. subst run.
  pose proof (lookup_lt_Some _ _ _ Hline) as Hr.
  pose proof (lookup_lt_Some _ _ _ Hcell) as Hc.
  unfold JS.toggleCell at 1. simpl. rewrite Hline. simpl. rewrite Hcell. simpl.
  set (v' := if JS.truthy v then JS.DEAD else JS.ALIVE).
  eexists. exists v'. split; [reflexivity|]. simpl.
  split. { rewrite list_lookup_insert_eq by done. simpl.
           by rewrite list_lookup_insert_eq. }
  split. { intros ->. reflexivity. }
  split. { intros ->. reflexivity. }
  split.
  { intros r' c' Hne. destruct (decide (r' = r)) as [->|Hr'].
    - rewrite list_lookup_insert_eq by done. rewrite Hline. simpl.
      apply list_lookup_insert_ne. congruence.
    - by rewrite list_lookup_insert_ne. }
  split; [apply length_insert|].
  split.
  { intros r'. destruct (decide (r' = r)) as [->|Hr'].
    - rewrite list_lookup_insert_eq by done. rewrite Hline. simpl.
      by rewrite length_insert.
    - by rewrite list_lookup_insert_ne. }
  split; [done|]. split; [done|].
  unfold JS.toggleCell. simpl.
  rewrite list_lookup_insert_eq by done. simpl.
  rewrite list_lookup_insert_eq by done. simpl.
  rewrite list_insert_insert_eq, list_insert_insert_eq.
  assert ((if JS.truthy v' then JS.DEAD else JS.ALIVE) = v) as ->
    by (subst v'; destruct Hv as [-> | ->]; reflexivity).
  by rewrite (list_insert_id line c v), (list_insert_id g r line).
Qed.

Lemma toggle_flips_exactly_one_cell_witness :
  exists st' v',
    JS.toggleCell 1 1 (JS.mkState bar3_js false 0) = Some st' /\
    (line' ← JS.grid st' !! 1%nat; line' !! 1%nat) = Some v' /\
    (1 = JS.ALIVE -> v' = JS.DEAD) /\ (1 = JS.DEAD -> v' = JS.ALIVE) /\
    (forall r' c' : nat, (r', c') <> (1%nat, 1%nat) ->
       (line' ← JS.grid st' !! r'; line' !! c')
       = (line' ← bar3_js !! r'; line' !! c')) /\
    length (JS.grid st') = length bar3_js /\
    (forall r' : nat,
       length <$> JS.grid st' !! r' = length <$> bar3_js !! r') /\
    JS.running st' = false /\
    JS.generation st' = 0 /\
    JS.toggleCell 1 1 st' = Some (JS.mkState bar3_js false 0).
Proof.
  apply (toggle_flips_exactly_one_cell 1 1 (JS.mkState bar3_js false 0)
           [0; 1; 0] 1).
  - reflexivity.
  - reflexivity.
  - reflexivity.
  - left. reflexivity.
Defined.

(** * Further properties of the Java class *)

Section JavaMore.
Import Java JavaFacts.

(** ** Reading cells *)

(** X1.  On a rectangular grid [getCellState(row, col)] returns a state
    exactly for the coordinates inside the grid; everywhere else it throws. *)
Theorem getCellState_defined_inside
    (R C : nat) (g : list (list bool)) (row col : Z) :
  rect R C g ->
  (is_Some (getCellState g row col)
   <-> 0 <= row < Z.of_nat R /\ 0 <= col < Z.of_nat C).
Proof.
  intros Hg. split.
  - intros [b Hb]. unfold getCellState, aget2, aget in Hb.
    destruct (decide (0 <= row)); [|done].
    destruct (g !! Z.to_nat row) as [line|] eqn:Hline; [|done]. simpl in Hb.
    destruct (decide (0 <= col)); [|done].
    pose proof (lookup_lt_Some _ _ _ Hline) as Hr.
    pose proof (lookup_lt_Some _ _ _ Hb) as Hc.
    rewrite (rect_lookup R C g _ line Hg Hline) in Hc.
    destruct Hg as [Hlen _]. lia.
  - intros [Hrow Hcol].
    destruct (aget2_in_range R C g row col Hg Hrow Hcol) as (b & Hb & _).
    by exists b.
Qed.

Lemma getCellState_defined_inside_witness :
  is_Some (getCellState bar3_java 1 1) <-> 0 <= 1 < 3 /\ 0 <= 1 < 3.
Proof.
  apply (getCellState_defined_inside 3 3 bar3_java 1 1).
  exact bar3_java_rect.
Defined.

(** X2.  [numOfAliveNeighbors(row, col)] throws for every row outside the
    grid, whatever the column. *)
Theorem numOfAliveNeighbors_row_outside
    (g : list (list bool)) (row col : Z) :
  ~ (0 <= row < alen g) -> numOfAliveNeighbors g row col = None.
Proof.
  intros Hout.
  assert (aget g row = None) as Hrow.
  { unfold aget, alen in *. destruct (decide (0 <= row)); [|done].
    apply lookup_ge_None. lia. }
  unfold numOfAliveNeighbors, deltas. cbn [for_each Z.eqb andb].
  destruct (irem (iadd (iadd row (-1)) (alen g)) (alen g)) as [nr|];
    cbn [mbind option_bind]; [|done].
  by rewrite Hrow.
Qed.

Lemma numOfAliveNeighbors_row_outside_witness :
  numOfAliveNeighbors bar3_java 3 0 = None.
Proof.
  apply (numOfAliveNeighbors_row_outside bar3_java 3 0).
  unfold alen. simpl. lia.
Defined.

(** ** Stepping *)

(** X3.  On a rectangular grid with at least one row, [nextGeneration(n)]
    returns for every [n] (no exception), the new grid has the dimensions of
    the old one, and [totalAliveCells] is what it was before. *)
Theorem stepping_keeps_dimensions_and_counter
    (R C : nat) (n : Z) (s : GameOfLife) :
  rect R C (grid s) ->
  0 < Z.of_nat R < 2 ^ 30 -> 0 <= Z.of_nat C < 2 ^ 30 ->
  exists s',
    nextGeneration_n n s = Some s' /\
    rect R C (grid s') /\
    getTotalAliveCells s' = getTotalAliveCells s.
Proof.
  intros Hg HR HC. unfold nextGeneration_n.
  generalize (Z.to_nat n) as k. intros k. revert s Hg.
  induction k as [|k IH]; intros s Hg; [by exists s|].
  cbn [repeat_step]. unfold nextGeneration.
  rewrite (computeNewGrid_spec R C) by done. cbn [mbind option_bind].
  destruct (IH {| grid := torus_step (is_alive (grid s)) (Z.of_nat R)
                            (Z.of_nat C);
                  totalAliveCells := totalAliveCells s |})
    as (s' & Hs' & Hrect & Htotal).
  { apply torus_step_rect. }
  exists s'. by rewrite Hs'.
Qed.

Lemma stepping_keeps_dimensions_and_counter_witness :
  exists s',
    nextGeneration_n 7 (mkGameOfLife bar3_java 3) = Some s' /\
    rect 3 3 (grid s') /\
    getTotalAliveCells s' = getTotalAliveCells (mkGameOfLife bar3_java 3).
Proof.
  apply (stepping_keeps_dimensions_and_counter 3 3 7
           (mkGameOfLife bar3_java 3)).
  - exact bar3_java_rect.
  - simpl; lia.
  - simpl; lia.
Defined.

(** X4.  A game whose grid has no rows cannot be stepped or measured:
    [computeNewGrid], [nextGeneration(n)] for every positive [n] and
    [numOfCommunities] all throw at [grid[0]]. *)
Theorem no_rows_no_step (s : GameOfLife) (n : Z) :
  grid s = [] -> 0 < n ->
  computeNewGrid (grid s) = None /\
  nextGeneration_n n s = None /\
  numOfCommunities (grid s) = None.
Proof.
  intros Hgrid Hn. unfold nextGeneration_n.
  destruct (Z.to_nat n) as [|k] eqn:Hk; [lia|].
  cbn [repeat_step]. unfold nextGeneration. by rewrite Hgrid.
Qed.

Lemma no_rows_no_step_witness :
  computeNewGrid [] = None /\
  nextGeneration_n 2 (mkGameOfLife [] 0) = None /\
  numOfCommunities [] = None.
Proof.
  apply (no_rows_no_step (mkGameOfLife [] 0) 2); [reflexivity|lia].
Defined.

(** X5.  An all-dead Java game is a fixed point of stepping: for every [n],
    [nextGeneration(n)] returns the game it was given. *)
Theorem dead_game_stays_dead (R C : nat) (n total : Z) :
  0 < Z.of_nat R < 2 ^ 30 -> 0 <= Z.of_nat C < 2 ^ 30 ->
  nextGeneration_n n {| grid := new_boolean R C; totalAliveCells := total |}
  = Some {| grid := new_boolean R C; totalAliveCells := total |}.
Proof.
  intros HR HC. unfold nextGeneration_n.
  induction (Z.to_nat n) as [|k IH]; [done|].
  cbn [repeat_step]. unfold nextGeneration. cbn [grid totalAliveCells].
  rewrite computeNewGrid_empty by done. exact IH.
Qed.

Lemma dead_game_stays_dead_witness :
  nextGeneration_n 9 {| grid := new_boolean 3 5; totalAliveCells := 0 |}
  = Some {| grid := new_boolean 3 5; totalAliveCells := 0 |}.
Proof. apply (dead_game_stays_dead 3 5 9 0); simpl; lia. Defined.

(** ** isAlive *)

Lemma any_of_existsb {B} (test : B -> option bool) (p : B -> bool) xs :
  (forall x, x ∈ xs -> test x = Some (p x)) ->
  any_of test xs = Some (existsb p xs).
Proof.
  induction xs as [|x xs IH]; intros Htest; [done|]. cbn [any_of existsb].
  rewrite Htest by apply list_elem_of_here.
  destruct (p x); [done|]. apply IH.
  intros y Hy. apply Htest. by apply list_elem_of_further.
Qed.

Lemma existsb_seqZ (p : Z -> bool) n :
  existsb p (seqZ 0 n) = true <-> exists i, 0 <= i < n /\ p i = true.
Proof.
  rewrite existsb_exists. split.
  - intros (i & Hi%list_elem_of_In%elem_of_seqZ & Hp). exists i. split; [lia|done].
  - intros (i & Hi & Hp). exists i. split; [|done].
    apply list_elem_of_In, elem_of_seqZ. lia.
Qed.

(** The cells of a row that [isAlive] scans. *)
Lemma scan_row (g : list (list bool)) (row : Z) :
  0 <= row < alen g ->
  (line ← aget g row;
   any_of (fun col =>
     cell ← aget2 g row col;
     Some (bool_decide (cell = ALIVE)))
     (seqZ 0 (alen line)))
  = Some (existsb (is_alive g row)
            (seqZ 0 (alen (default [] (aget g row))))).
Proof.
  intros Hrow. destruct (aget_in_range g row Hrow) as [line Hline].
  rewrite Hline. cbn [mbind option_bind]. unfold default. cbn [from_option id].
  apply any_of_existsb. intros col Hcol%elem_of_seqZ.
  unfold is_alive, aget2. rewrite Hline. cbn [mbind option_bind].
  destruct (aget_in_range line col) as [cell ->]; [lia|].
  cbn [mbind option_bind]. f_equal. unfold ALIVE.
  destruct cell; by vm_compute.
Qed.

Lemma is_alive_inside (g : list (list bool)) (row col : Z) :
  is_alive g row col = true ->
  0 <= row < alen g /\ 0 <= col < alen (default [] (aget g row)).
Proof.
  unfold is_alive. intros Halive%bool_decide_eq_true.
  unfold aget2, aget, alen in *.
  destruct (decide (0 <= row)); [|done].
  destruct (g !! Z.to_nat row) as [line|] eqn:Hline; [|done].
  cbn [mbind option_bind] in *. unfold default. cbn [from_option id].
  destruct (decide (0 <= col)); [|done].
  apply lookup_lt_Some in Hline, Halive. lia.
Qed.

Lemma elem_of_concat {A} (x : A) (ls : list (list A)) :
  x ∈ concat ls <-> exists l, x ∈ l /\ l ∈ ls.
Proof.
  induction ls as [|l0 ls IH]; simpl.
  - rewrite elem_of_nil. split; [done|]. intros (l & _ & Hl).
    by apply elem_of_nil in Hl.
  - rewrite elem_of_app, IH. split.
    + intros [Hx | (l & Hx & Hl)].
      * exists l0. split; [done|apply list_elem_of_here].
      * exists l. split; [done|by apply list_elem_of_further].
    + intros (l & Hx & Hl). apply elem_of_cons in Hl as [-> | Hl]; eauto.
Qed.

Lemma alive_total_positive (g : list (list bool)) :
  0 < alive_total g <-> exists row col, aget2 g row col = Some ALIVE.
Proof.
  unfold alive_total. split.
  - intros Hpos.
    destruct (filter (fun b : bool => b = true) (concat g)) as [|b l] eqn:Hf;
      [simpl in Hpos; lia|].
    assert (b ∈ filter (fun b : bool => b = true) (concat g)) as Hb
      by (rewrite Hf; apply list_elem_of_here).
    apply list_elem_of_filter in Hb as [-> Hin].
    apply elem_of_concat in Hin as (line & Hcell & Hline).
    apply list_elem_of_lookup in Hline as [r Hr].
    apply list_elem_of_lookup in Hcell as [c Hc].
    exists (Z.of_nat r), (Z.of_nat c).
    unfold aget2. rewrite aget_nat, Hr. cbn [mbind option_bind].
    by rewrite aget_nat.
  - intros (row & col & Hcell). unfold aget2, aget in Hcell.
    destruct (decide (0 <= row)); [|done].
    destruct (g !! Z.to_nat row) as [line|] eqn:Hline; [|done].
    cbn [mbind option_bind] in Hcell.
    destruct (decide (0 <= col)); [|done].
    assert (true ∈ filter (fun b : bool => b = true) (concat g)) as Hin.
    { apply list_elem_of_filter. split; [done|].
      apply elem_of_concat. exists line.
      split; apply list_elem_of_lookup; eauto. }
    destruct (filter (fun b : bool => b = true) (concat g));
      [by apply elem_of_nil in Hin|simpl; lia].
Qed.

(** X6.  [isAlive()] returns on every grid, and it returns true exactly when
    some cell of the grid is alive, that is when the grid holds at least one
    live cell. *)
Theorem isAlive_iff_some_cell_alive (g : list (list bool)) :
  exists b,
    isAlive g = Some b /\
    (b = true <-> exists row col, getCellState g row col = Some ALIVE) /\
    (b = true <-> 0 < alive_total g).
Proof.
  eexists. split.
  { unfold isAlive. apply any_of_existsb.
    intros row Hrow%elem_of_seqZ. apply scan_row. lia. }
  assert (existsb
            (fun row => existsb (is_alive g row)
                          (seqZ 0 (alen (default [] (aget g row)))))
            (seqZ 0 (alen g)) = true
          <-> exists row col, aget2 g row col = Some ALIVE) as Hiff.
  { rewrite existsb_seqZ. split.
    - intros (row & Hrow & (col & Hcol & Halive)%existsb_seqZ).
      exists row, col. by apply bool_decide_eq_true in Halive.
    - intros (row & col & Halive).
      assert (is_alive g row col = true) as Hlive
        by (by apply bool_decide_eq_true).
      destruct (is_alive_inside g row col Hlive) as [Hrow Hcol].
      exists row. split; [done|]. apply existsb_seqZ. by exists col. }
  split; [exact Hiff|]. by rewrite alive_total_positive.
Qed.

End JavaMore.

(** * The constructor reading a file *)

Section Loading.
Import Java JavaFacts.

Lemma concat_insert_cell (C : nat) (g : list (list bool)) i j line b :
  Forall (fun l => length l = C) g -> g !! i = Some line -> (j < C)%nat ->
  concat (<[i := <[j := b]> line]> g) = <[(i * C + j)%nat := b]> (concat g).
Proof.
  revert i. induction g as [|l0 g IH]; intros i Hall Hi Hj; [done|].
  apply Forall_cons in Hall as [Hl0 Hall].
  destruct i as [|i]; simpl in *.
  - injection Hi as ->. symmetry. apply insert_app_l. lia.
  - rewrite IH by done.
    replace (C + i * C + j)%nat with (length l0 + (i * C + j))%nat by lia.
    by rewrite insert_app_r.
Qed.

Lemma aset2_rect R C (g : list (list bool)) i j b :
  rect R C g -> rect R C (aset2 g i j b).
Proof.
  intros [Hlen Hall]. unfold aset2.
  destruct (g !! i) as [line|] eqn:Hi; [|done]. split.
  - by rewrite length_insert.
  - apply Forall_insert; [done|]. rewrite length_insert.
    rewrite Forall_lookup in Hall. eauto.
Qed.

Lemma concat_aset2 R C (g : list (list bool)) i j b :
  rect R C g -> (i < R)%nat -> (j < C)%nat ->
  concat (aset2 g i j b) = <[(i * C + j)%nat := b]> (concat g).
Proof.
  intros Hg Hi Hj. destruct (rect_row R C g i Hg Hi) as (line & Hline & _).
  unfold aset2. rewrite Hline. apply concat_insert_cell; [apply Hg|done..].
Qed.

Lemma aget2_aset2 R C (g : list (list bool)) (i j : nat) b :
  rect R C g -> (i < R)%nat -> (j < C)%nat ->
  aget2 (aset2 g i j b) (Z.of_nat i) (Z.of_nat j) = Some b.
Proof.
  intros Hg Hi Hj.
  destruct (rect_row R C g i Hg Hi) as (line & Hline & Hlen).
  unfold aset2, aget2. rewrite Hline, aget_nat.
  rewrite list_lookup_insert_eq by (destruct Hg as [-> _]; lia).
  cbn [mbind option_bind]. rewrite aget_nat.
  apply list_lookup_insert_eq. lia.
Qed.

Lemma concat_new_boolean R C :
  concat (new_boolean R C) = replicate (R * C) false.
Proof.
  unfold new_boolean. induction R as [|R IH]; [done|]. simpl.
  by rewrite IH, replicate_add.
Qed.

Lemma new_boolean_rect R C : rect R C (new_boolean R C).
Proof.
  unfold new_boolean. split; [apply length_replicate|].
  apply Forall_replicate, length_replicate.
Qed.

Lemma cells_succ (R : nat) (C : Z) :
  cells (Z.of_nat (S R)) C
  = cells (Z.of_nat R) C ++ (pair (Z.of_nat R) <$> seqZ 0 C).
Proof.
  unfold cells. rewrite seqZ_S, bind_app, bind_singleton. done.
Qed.

Lemma length_cells (R C : nat) :
  length (cells (Z.of_nat R) (Z.of_nat C)) = (R * C)%nat.
Proof.
  induction R as [|R IH]; [done|].
  rewrite cells_succ, length_app, IH, length_fmap, length_seqZ. lia.
Qed.

(** The m-th cell in row-major order has flattened index m. *)
Lemma lookup_cells (R C : nat) (m : nat) p :
  cells (Z.of_nat R) (Z.of_nat C) !! m = Some p ->
  0 <= p.1 < Z.of_nat R /\ 0 <= p.2 < Z.of_nat C /\
  flat_index (Z.of_nat C) p = Z.of_nat m.
Proof.
  revert m. induction R as [|R IH]; intros m Hm; [done|].
  rewrite cells_succ in Hm. apply lookup_app_Some in Hm as [Hm | [Hge Hm]].
  - destruct (IH m Hm) as (H1 & H2 & H3). split; [lia|done].
  - rewrite length_cells in Hge, Hm.
    rewrite list_lookup_fmap in Hm.
    destruct (seqZ 0 (Z.of_nat C) !! (m - R * C)%nat) as [c|] eqn:Hc; [|done].
    injection Hm as <-. apply lookup_seqZ in Hc as [-> Hlt].
    unfold flat_index. cbn [fst snd]. lia.
Qed.

Lemma count_true_snoc (l : list bool) (b : bool) :
  count_true (l ++ [b]) = count_true l + Z.b2z b.
Proof.
  unfold count_true. rewrite filter_app, length_app.
  destruct b; simpl; rewrite ?filter_cons_True, ?filter_cons_False by done;
    simpl; lia.
Qed.

Lemma count_true_range (l : list bool) :
  0 <= count_true l <= Z.of_nat (length l).
Proof.
  unfold count_true.
  pose proof (length_filter (fun b : bool => b = true) l). lia.
Qed.

Section Input.
Variables (R C : nat) (input : list bool).
Hypothesis Hn : Z.of_nat R * Z.of_nat C < 2 ^ 31.

Local Abbreviation start :=
  {| loaded := {| grid := new_boolean R C; totalAliveCells := 0 |};
     unread := input |}.

(** The state of the constructor after its first [m] reads. *)
Lemma loading_prefix (m : nat) :
  (m <= R * C)%nat -> (m <= length input)%nat ->
  exists g,
    for_each (fun st p => readCell st p.1 p.2) start
      (take m (cells (Z.of_nat R) (Z.of_nat C)))
    = Some {| loaded := {| grid := g;
                           totalAliveCells := count_true (take m input) |};
              unread := drop m input |} /\
    rect R C g /\
    concat g = take m input ++ replicate (R * C - m) false.
Proof.
  induction m as [|m IH]; intros Hm Hin.
  { exists (new_boolean R C). split; [done|].
    split; [apply new_boolean_rect|].
    by rewrite concat_new_boolean, Nat.sub_0_r. }
  destruct IH as (g & Hrun & Hg & Hcat); [lia..|].
  destruct (lookup_lt_is_Some_2 (cells (Z.of_nat R) (Z.of_nat C)) m)
    as [p Hp]; [rewrite length_cells; lia|].
  destruct (lookup_lt_is_Some_2 input m) as [b Hb]; [lia|].
  destruct (lookup_cells R C m p Hp) as (Hp1 & Hp2 & Hidx).
  unfold flat_index in Hidx.
  rewrite (take_S_r _ _ _ Hp), for_each_app, Hrun.
  cbn [mbind option_bind for_each].
  unfold readCell. cbn [loaded unread grid totalAliveCells].
  rewrite (drop_S _ _ _ Hb). cbn [readBoolean mbind option_bind fst snd].
  pose proof (aget2_aset2 R C g (Z.to_nat p.1) (Z.to_nat p.2) b Hg) as Hback.
  rewrite !Z2Nat.id in Hback by lia.
  rewrite Hback by lia.
  cbn [mbind option_bind].
  exists (aset2 g (Z.to_nat p.1) (Z.to_nat p.2) b).
  split; [|split].
  - do 3 f_equal. rewrite (take_S_r _ _ _ Hb), count_true_snoc.
    pose proof (count_true_range (take m input)) as Hrange.
    rewrite length_take in Hrange.
    unfold ALIVE. destruct b; simpl.
    + apply wrap32_small. lia.
    + lia.
  - by apply aset2_rect.
  - rewrite (concat_aset2 R C) by (first [done | lia]).
    rewrite Hcat, (take_S_r _ _ _ Hb).
    replace (Z.to_nat p.1 * C + Z.to_nat p.2)%nat
      with (length (take m input) + 0)%nat by (rewrite length_take; nia).
    rewrite insert_app_r.
    replace (R * C - m)%nat with (S (R * C - S m)) by lia.
    simpl. by rewrite <- app_assoc.
Qed.

Lemma fromFile_loop :
  for_each (fun st i =>
    for_each (fun st j => readCell st i j) st (seqZ 0 (Z.of_nat C)))
    start (seqZ 0 (Z.of_nat R))
  = for_each (fun st p => readCell st p.1 p.2) start
      (cells (Z.of_nat R) (Z.of_nat C)).
Proof.
  by rewrite (for_each_nest (fun i st j => readCell st i j)
                (fun _ => seqZ 0 (Z.of_nat C))).
Qed.

End Input.

Lemma rect_concat_inj {A} R C (g1 g2 : list (list A)) :
  rect R C g1 -> rect R C g2 -> concat g1 = concat g2 -> g1 = g2.
Proof.
  intros [Hl1 Ha1] [Hl2 Ha2]. subst R. revert g2 Hl2 Ha2.
  induction g1 as [|l1 g1 IH]; intros [|l2 g2] Hl2 Ha2 Hcat; try done.
  apply Forall_cons in Ha1 as [H1 Ha1]. apply Forall_cons in Ha2 as [H2 Ha2].
  simpl in *. apply app_inj_1 in Hcat as [-> Hcat]; [|lia].
  f_equal. apply IH; [done|lia|done..].
Qed.

(** X7.  Round trip of the file constructor: reading the dimensions of a
    rectangular grid and then its cells in row-major order builds exactly
    that grid and sets [totalAliveCells] to the number of its live cells;
    whatever follows the last cell in the file is ignored. *)
Theorem fromFile_reads_grid_and_counts
    (R C : nat) (g : list (list bool)) (rest : list bool) :
  rect R C g -> Z.of_nat R * Z.of_nat C < 2 ^ 31 ->
  fromFile (Z.of_nat R) (Z.of_nat C) (concat g ++ rest)
  = Some {| grid := g; totalAliveCells := alive_total g |}.
Proof.
  intros Hg Hn. unfold fromFile.
  destruct (decide (0 <= Z.of_nat R /\ 0 <= Z.of_nat C)); [|lia].
  rewrite !Nat2Z.id, fromFile_loop.
  assert (length (concat g) = (R * C)%nat) as Hlen.
  { destruct Hg as [<- Hall]. clear Hn a.
    induction g as [|l g IH]; [done|].
    apply Forall_cons in Hall as [Hl Hall]. simpl.
    rewrite length_app, IH by done. lia. }
  destruct (loading_prefix R C (concat g ++ rest) Hn (R * C))
    as (g' & Hrun & Hg' & Hcat); [lia|rewrite length_app; lia|].
  rewrite take_ge in Hrun by (rewrite length_cells; lia).
  rewrite Hrun. cbn [mbind option_bind loaded].
  rewrite take_app_length' in Hcat by done.
  rewrite Nat.sub_diag, app_nil_r in Hcat.
  rewrite take_app_length' by done.
  apply (rect_concat_inj R C) in Hcat; [|done..]. by subst g'.
Qed.

Lemma fromFile_reads_grid_and_counts_witness :
  fromFile 3 5 (concat wrapped_pair35 ++ [true; true])
  = Some {| grid := wrapped_pair35; totalAliveCells := 2 |}.
Proof.
  apply (fromFile_reads_grid_and_counts 3 5 wrapped_pair35 [true; true]).
  - apply rect35; [reflexivity|repeat constructor].
  - simpl; lia.
Defined.

(** X8.  The file constructor throws when a dimension is negative, and when
    the file holds fewer cells than [row * col]. *)
Theorem fromFile_rejects_short_input (row col : Z) (input : list bool) :
  row * col < 2 ^ 31 ->
  row < 0 \/ col < 0 \/
    (0 <= row /\ 0 <= col /\ Z.of_nat (length input) < row * col) ->
  fromFile row col input = None.
Proof.
  intros Hn Hbad. unfold fromFile.
  destruct (decide (0 <= row /\ 0 <= col)) as [[Hrow Hcol]|]; [|done].
  destruct Hbad as [?|[?|(_ & _ & Hshort)]]; [lia..|].
  rewrite <- (Z2Nat.id row), <- (Z2Nat.id col) in Hn |- * by done.
  set (R := Z.to_nat row) in *. set (C := Z.to_nat col) in *.
  rewrite !Nat2Z.id, fromFile_loop.
  set (m := length input).
  destruct (loading_prefix R C input Hn m) as (g & Hrun & Hg & _);
    [lia|done|].
  destruct (lookup_lt_is_Some_2 (cells (Z.of_nat R) (Z.of_nat C)) m)
    as [p Hp]; [rewrite length_cells; lia|].
  rewrite <- (take_drop m (cells (Z.of_nat R) (Z.of_nat C))).
  rewrite for_each_app, Hrun. cbn [mbind option_bind].
  rewrite (drop_S _ _ _ Hp). cbn [for_each].
  unfold readCell. cbn [unread]. subst m. by rewrite drop_all.
Qed.

Lemma fromFile_rejects_short_input_witness :
  fromFile 2 2 [true; false; true] = None.
Proof.
  apply (fromFile_rejects_short_input 2 2 [true; false; true]).
  - lia.
  - right. right. simpl. lia.
Defined.

End Loading.

(** * Communities of isolated cells *)

Section Isolated.
Import Java JavaFacts CommunityFacts.

Variables (R C : nat) (g : list (list bool)).
Hypothesis Hg : rect R C g.
Hypothesis HR : 0 < Z.of_nat R < 2 ^ 30.
Hypothesis HC : 0 < Z.of_nat C < 2 ^ 30.
Hypothesis Hn : Z.of_nat R * Z.of_nat C < 2 ^ 31.

Local Abbreviation ZR := (Z.of_nat R).
Local Abbreviation ZC := (Z.of_nat C).

(** On the structure as constructed, the second loop nest collects the
    flattened index of every cell it is given. *)
Lemma collect_fresh_roots (ps : list (Z * Z)) (acc : list Z) :
  NoDup ps ->
  (forall p, p ∈ ps -> p ∈ cells ZR ZC) ->
  (forall p, p ∈ ps -> flat_index ZC p ∉ acc) ->
  for_each (fun lst p => addRoot (fresh_forest ZR ZC) lst p.1 p.2) acc ps
  = Some (acc ++ (flat_index ZC <$> ps)).
Proof.
  assert (0 < ZR) as HR' by lia. assert (0 < ZC) as HC' by lia.
  revert acc. induction ps as [|p ps IH]; intros acc Hnd Hin Hnew.
  { simpl. by rewrite app_nil_r. }
  apply NoDup_cons in Hnd as [Hp Hnd]. cbn [for_each].
  rewrite (addRoot_new _ _ _ (flat_index ZC p)).
  - rewrite IH.
    + by rewrite <- app_assoc.
    + done.
    + intros q Hq. apply Hin. by apply list_elem_of_further.
    + intros q Hq [Hacc | Heq%list_elem_of_singleton]%elem_of_app.
      * by apply (Hnew q); [apply list_elem_of_further|].
      * apply Hp.
        assert (q = p) as ->; [|done].
        apply (flat_index_inj ZR ZC); [lia..| | |done].
        -- apply Hin. by apply list_elem_of_further.
        -- apply Hin, list_elem_of_here.
  - apply find_fresh; [lia..|]. apply Hin, list_elem_of_here.
  - apply Hnew, list_elem_of_here.
Qed.

Lemma isolated_count :
  (forall p q, p ∈ live_cells ZR ZC g -> q ∈ live_cells ZR ZC g ->
               q ∈ torus_neighbours ZR ZC p.1 p.2 -> q = p) ->
  numOfCommunities g = Some (Z.of_nat (length (live_cells ZR ZC g))).
Proof.
  intros Hiso. rewrite (numOfCommunities_flat R C g Hg HR HC Hn).
  rewrite (isolated_cells_stay_apart R C g HR HC Hn).
  - cbn [mbind option_bind].
    rewrite collect_fresh_roots.
    + cbn [mbind option_bind app]. unfold alen. by rewrite length_fmap.
    + apply NoDup_live_cells.
    + by intros p [_ ?]%elem_of_live_cells.
    + intros p _. apply not_elem_of_nil.
  - intros p q Hp [Hq1 Hq2]%elem_of_live_neighbours; [|lia..].
    by apply Hiso.
Qed.

End Isolated.

(** X9.  When no live cell has another live cell among its eight toroidal
    neighbours, [numOfCommunities] returns the number of live cells: every
    live cell is a community of its own. *)
Theorem isolated_cells_are_communities (R C : nat) (g : list (list bool)) :
  rect R C g ->
  0 < Z.of_nat R < 2 ^ 30 -> 0 < Z.of_nat C < 2 ^ 30 ->
  Z.of_nat R * Z.of_nat C < 2 ^ 31 ->
  let live := live_cells (Z.of_nat R) (Z.of_nat C) g in
  (forall p q, p ∈ live -> q ∈ live ->
               q ∈ torus_neighbours (Z.of_nat R) (Z.of_nat C) p.1 p.2 ->
               q = p) ->
  Java.numOfCommunities g = Some (Z.of_nat (length live)).
Proof. intros Hg HR HC Hn live. by apply isolated_count. Qed.

Lemma isolated_cells_are_communities_witness :
  Java.numOfCommunities scattered55 = Some 3.
Proof.
  apply (isolated_cells_are_communities 5 5 scattered55).
  - split; [reflexivity|repeat constructor].
  - simpl; lia.
  - simpl; lia.
  - simpl; lia.
  - change (Z.of_nat 5) with 5.
    assert (live_cells 5 5 scattered55 = [(0, 0); (0, 3); (2, 2)]) as ->
      by reflexivity.
    intros p q Hp Hq Hnb.
    rewrite !elem_of_cons, elem_of_nil in Hp, Hq.
    destruct Hp as [-> | [-> | [-> | []]]], Hq as [-> | [-> | [-> | []]]];
      try reflexivity;
      unfold torus_neighbours, offsets8 in Hnb; cbn [map fst snd] in Hnb;
      rewrite !elem_of_cons, elem_of_nil in Hnb;
      repeat (destruct Hnb as [Hnb|Hnb]; [vm_compute in Hnb; discriminate Hnb|]);
      destruct Hnb.
Defined.

(** * Further properties of the component *)

Section ComponentMore.
Import JS JSFacts.

Lemma encoded_step_rect alive (R C : nat) :
  rect R C (map (map encode) (torus_step alive (Z.of_nat R) (Z.of_nat C))).
Proof.
  destruct (JavaFacts.torus_step_rect alive R C) as [Hl Hall].
  split; [by rewrite length_map|].
  apply Forall_map. eapply Forall_impl; [exact Hall|].
  intros line Hline. simpl. by rewrite length_map.
Qed.

Lemma encoded_binary (g : list (list bool)) : binary (map (map encode) g).
Proof.
  unfold binary. apply Forall_map, Forall_forall. intros line _. simpl.
  apply Forall_map, Forall_forall. intros b _. simpl.
  destruct b; [by right|by left].
Qed.

Lemma nextGen_well_formed rows cols (g : list (list Z)) :
  rect rows cols g -> binary g ->
  exists g', nextGen rows cols g = Some g' /\ rect rows cols g' /\ binary g'.
Proof.
  intros Hg Hb. eexists. split; [by apply nextGen_spec|].
  split; [apply encoded_step_rect|apply encoded_binary].
Qed.

Lemma toggle_well_formed rows cols r c st :
  well_formed rows cols st -> (r < rows)%nat -> (c < cols)%nat ->
  exists st', toggleCell r c st = Some st' /\ well_formed rows cols st'.
Proof.
  intros [Hg Hb] Hr Hc. unfold toggleCell.
  destruct (running st); [by exists st|].
  destruct (rect_cell rows cols (grid st) r c Hg Hr Hc)
    as (line & v & Hline & Hv).
  rewrite Hline. cbn [mbind option_bind]. rewrite Hv. cbn [mbind option_bind].
  eexists. split; [reflexivity|]. split; cbn [grid].
  - destruct Hg as [Hlen Hall]. split; [by rewrite length_insert|].
    apply Forall_insert; [done|]. rewrite length_insert.
    by apply (rect_lookup rows cols (grid st) r).
  - unfold binary in *. apply Forall_insert; [done|].
    apply Forall_insert.
    + rewrite Forall_lookup in Hb. eauto.
    + unfold DEAD, ALIVE. destruct (truthy v); [by left|by right].
Qed.

Lemma randomise_well_formed rows cols draw st :
  well_formed rows cols (randomise rows cols draw st).
Proof.
  split; cbn [randomise grid].
  - split; [by rewrite length_map, length_seq|].
    apply Forall_map, Forall_forall. intros r _. simpl.
    by rewrite length_map, length_seq.
  - unfold binary. apply Forall_map, Forall_forall. intros r _. simpl.
    apply Forall_map, Forall_forall. intros c _. simpl.
    unfold DEAD, ALIVE. destruct (draw _); [by right|by left].
Qed.

Lemma perform_well_formed rows cols a st :
  well_formed rows cols st -> clickable rows cols a ->
  exists st', perform rows cols a st = Some st' /\ well_formed rows cols st'.
Proof.
  intros Hwf Hclick. destruct a as [r c| | | | |draw]; cbn [perform].
  - destruct Hclick. by apply toggle_well_formed.
  - by exists (runToggle st).
  - unfold step. destruct (running st); [by exists st|].
    destruct Hwf as [Hg Hb].
    destruct (nextGen_well_formed rows cols (grid st) Hg Hb)
      as (g' & -> & Hg' & Hb').
    cbn [mbind option_bind]. eexists. by split.
  - unfold tick. destruct (running st); cbn [negb]; [|by exists st].
    destruct Hwf as [Hg Hb].
    destruct (nextGen_well_formed rows cols (grid st) Hg Hb)
      as (g' & -> & Hg' & Hb').
    cbn [mbind option_bind]. eexists. by split.
  - eexists. split; [reflexivity|].
    split; [apply buildEmptyGrid_rect|apply buildEmptyGrid_binary].
  - eexists. split; [reflexivity|]. apply randomise_well_formed.
Qed.

(** X10.  The grid invariant of the component: from a state whose grid is
    rows-by-cols and holds only 0 and 1, every sequence of actions (clicks
    on drawn cells, the four buttons, timer ticks) runs without an
    exception and ends in such a state again. *)
Theorem actions_keep_grid_well_formed
    (rows cols : nat) (actions : list Action) (st : State) :
  well_formed rows cols st ->
  Forall (clickable rows cols) actions ->
  exists st',
    run rows cols actions st = Some st' /\ well_formed rows cols st'.
Proof.
  unfold run. revert st.
  induction actions as [|a actions IH]; intros st Hwf Hall; [by exists st|].
  apply Forall_cons in Hall as [Ha Hall]. cbn [for_each].
  destruct (perform_well_formed rows cols a st Hwf Ha) as (st1 & -> & Hwf1).
  by apply IH.
Qed.

Lemma actions_keep_grid_well_formed_witness :
  exists st',
    run 30 50
      [Randomise Nat.even; RunToggle; Tick; RunToggle; Toggle 29 49; Step;
       Clear; Step]
      initial = Some st' /\
    well_formed 30 50 st'.
Proof.
  apply (actions_keep_grid_well_formed 30 50).
  - split; [apply buildEmptyGrid_rect|apply buildEmptyGrid_binary].
  - repeat constructor; simpl; lia.
Defined.





End ComponentMore.
